(** * siteadmin CDN loader: version lifecycle and supervision engine

    A shallow embedding of [start.py] (class [CDNLoader]) and the properties
    of its version discovery, state migration, download and control loop.

    Conventions of the embedding.
    - Python [str] values are [string]s of 8-bit characters; file and
      directory names are assumed to be ASCII.
    - A filesystem path is the list of its components; [os.path.join p n]
      is [p ++ [n]] (component names never contain a separator).
    - The operating system, the network and the supervised child process are
      an explicit [world] threaded through every method, together with an
      [environment] that decides the outcome of each fallible primitive.
    - [print] calls do not influence control flow or state and are left out;
      every operating-system action is recorded in the world's event log. *)

From Stdlib Require Import List String Ascii ZArith Lia Bool Permutation Arith Sorted.
Import ListNotations.
Open Scope string_scope.

(** ** Python string primitives *)

Module PyStr.

Definition is_digit (c : ascii) : bool :=
  let n := nat_of_ascii c in (48 <=? n)%nat && (n <=? 57)%nat.

Definition digit_val (c : ascii) : Z := Z.of_nat (nat_of_ascii c) - 48.

(** [str.isspace] restricted to code points below 128. *)
Definition is_space (c : ascii) : bool :=
  let n := nat_of_ascii c in
  ((9 <=? n)%nat && (n <=? 13)%nat) || ((28 <=? n)%nat && (n <=? 32)%nat).

Fixpoint all_digits (s : string) : bool :=
  match s with
  | EmptyString => true
  | String c r => is_digit c && all_digits r
  end.

Definition is_empty (s : string) : bool :=
  match s with EmptyString => true | _ => false end.

(** [s.replace(old, new)] for a one-character [old]. *)
Fixpoint replace_char (old : ascii) (new : string) (s : string) : string :=
  match s with
  | EmptyString => EmptyString
  | String c r =>
      if Ascii.eqb c old then new ++ replace_char old new r
      else String c (replace_char old new r)
  end.

Fixpoint lstrip (s : string) : string :=
  match s with
  | EmptyString => EmptyString
  | String c r => if is_space c then lstrip r else s
  end.

Fixpoint rstrip (s : string) : string :=
  match s with
  | EmptyString => EmptyString
  | String c r =>
      let r' := rstrip r in
      if is_space c && is_empty r' then EmptyString else String c r'
  end.

(** [s.strip()] *)
Definition strip (s : string) : string := rstrip (lstrip s).

(** [s.startswith(p)] *)
Definition startswith (p s : string) : bool := String.prefix p s.

(** [c in s] *)
Fixpoint contains (c : ascii) (s : string) : bool :=
  match s with
  | EmptyString => false
  | String d r => Ascii.eqb d c || contains c r
  end.

(** [s.split(c, 1)] on a string that contains [c]: the text before the first
    occurrence and the text after it. *)
Fixpoint split_first (c : ascii) (s : string) : string * string :=
  match s with
  | EmptyString => (EmptyString, EmptyString)
  | String d r =>
      if Ascii.eqb d c then (EmptyString, r)
      else let (k, v) := split_first c r in (String d k, v)
  end.

(** [s.endswith(p)] *)
Definition endswith (p s : string) : bool :=
  if (String.length p <=? String.length s)%nat
  then String.eqb (String.substring (String.length s - String.length p)
                                     (String.length p) s) p
  else false.

(** The digit part of [int(s)]: decimal digits, single underscores allowed
    between digits. [prev] tells whether the previous character was a digit. *)
Fixpoint int_digits (acc : Z) (prev : bool) (s : string) : option Z :=
  match s with
  | EmptyString => if prev then Some acc else None
  | String c r =>
      if is_digit c then int_digits (10 * acc + digit_val c) true r
      else if Ascii.eqb c "_" && prev then int_digits acc false r
      else None
  end.

(** [int(s)] on a [str]: surrounding whitespace is dropped, one sign is
    accepted; [None] stands for [ValueError]. *)
Definition py_int (s : string) : option Z :=
  match strip s with
  | String "+" r => int_digits 0 false r
  | String "-" r => option_map Z.opp (int_digits 0 false r)
  | t => int_digits 0 false t
  end.

End PyStr.
Import PyStr.

(** ** Version identifiers (get_newest_cdn, lines 27-34) *)

(** Longest prefix of decimal digits and the remaining text: the greedy [\d+]
    of the pattern (what follows a digit run in the pattern is never a digit,
    so no backtracking is involved). *)
Fixpoint span_digits (s : string) : string * string :=
  match s with
  | EmptyString => (EmptyString, EmptyString)
  | String c r =>
      if is_digit c then let (d, t) := span_digits r in (String c d, t)
      else (EmptyString, s)
  end.

Fixpoint strip_prefix (p s : string) : option string :=
  match p, s with
  | EmptyString, _ => Some s
  | String a p', String b s' =>
      if Ascii.eqb a b then strip_prefix p' s' else None
  | String _ _, EmptyString => None
  end.

(** [re.compile(r'^cdn-(\d+\.\d+\.\d+)$').match(file)]: the result is
    [group(1)]. [$] also matches just before a final newline. *)
Definition cdn_pattern (file : string) : option string :=
  match strip_prefix "cdn-" file with
  | None => None
  | Some r0 =>
      let (a, r1) := span_digits r0 in
      if is_empty a then None else
      match r1 with
      | String "." r2 =>
          let (b, r3) := span_digits r2 in
          if is_empty b then None else
          match r3 with
          | String "." r4 =>
              let (c, r5) := span_digits r4 in
              if is_empty c then None else
              if String.eqb r5 "" || String.eqb r5 (String "010" "")
              then Some (a ++ "." ++ b ++ "." ++ c)
              else None
          | _ => None
          end
      | _ => None
      end
  end.

(** [int(version.replace('.', ''))] *)
Definition version_num (version : string) : option Z :=
  py_int (replace_char "." "" version).

(** ** Python dictionaries with string keys

    A [dict] keeps its keys unique and in insertion order; assigning to a key
    that is present replaces the value in place. *)

Definition dict := list (string * string).

Fixpoint dict_get (k : string) (d : dict) : option string :=
  match d with
  | [] => None
  | (k', v) :: r => if String.eqb k' k then Some v else dict_get k r
  end.

(** [d[k] = v] *)
Fixpoint dict_set (k v : string) (d : dict) : dict :=
  match d with
  | [] => [(k, v)]
  | (k', v') :: r =>
      if String.eqb k' k then (k, v) :: r else (k', v') :: dict_set k v r
  end.

(** [{**a, **b}] *)
Definition dict_merge (a b : dict) : dict :=
  fold_left (fun d kv => dict_set (fst kv) (snd kv) d) b a.

(** ** The configuration file format (lines 64-69 and 105-110) *)

(** Iterating over a file opened in text mode: its lines, here without their
    terminator (every use strips the line first). *)
Fixpoint file_lines (s : string) : list string :=
  match s with
  | EmptyString => []
  | String c r =>
      if Ascii.eqb c "010" then EmptyString :: file_lines r
      else if Ascii.eqb c "013" then
        match r with
        | String "010" r' => EmptyString :: file_lines r'
        | _ => EmptyString :: file_lines r
        end
      else match file_lines r with
           | [] => [String c EmptyString]
           | l :: ls => String c l :: ls
           end
  end.

(** Body of the [for line in f] loop. *)
Definition env_line (content : dict) (raw : string) : dict :=
  let line := strip raw in
  if negb (is_empty line) && negb (startswith "#" line) && contains "=" line
  then let (key, value) := split_first "=" line in
       dict_set (strip key) (strip value) content
  else content.

Definition parse_env (lines : list string) (content : dict) : dict :=
  fold_left env_line lines content.

(** The [f.write] calls of restore_env_file (lines 117-120). *)
Definition render_env (timestamp : string) (merged : dict) : string :=
  ("# Last updated: " ++ timestamp ++ String "010" (String "010" ""))
  ++ ("# should have been migrated from prev version" ++ String "010" "")
  ++ concat "" (map (fun kv => fst kv ++ "=" ++ snd kv ++ String "010" "") merged).

(** ** Filesystem *)

Definition path := list string.

Inductive node := Dir | File (data : string).

Definition filesystem := list (path * node).

Fixpoint path_eqb (p q : path) : bool :=
  match p, q with
  | [], [] => true
  | a :: p', b :: q' => String.eqb a b && path_eqb p' q'
  | _, _ => false
  end.

(** [p] is [q] or one of its ancestors. *)
Fixpoint is_prefix (p q : path) : bool :=
  match p, q with
  | [], _ => true
  | a :: p', b :: q' => String.eqb a b && is_prefix p' q'
  | _ :: _, [] => false
  end.

(** The part of [q] below [p]. *)
Fixpoint below (p q : path) : option path :=
  match p, q with
  | [], _ => Some q
  | a :: p', b :: q' => if String.eqb a b then below p' q' else None
  | _ :: _, [] => None
  end.

Definition parent (p : path) : path := removelast p.

Definition basename (p : path) : string := last p "".

Fixpoint fs_lookup (fs : filesystem) (p : path) : option node :=
  match fs with
  | [] => None
  | (q, n) :: r => if path_eqb q p then Some n else fs_lookup r p
  end.

Definition fs_exists (fs : filesystem) (p : path) : bool :=
  match fs_lookup fs p with Some _ => true | None => false end.

Definition fs_isdir (fs : filesystem) (p : path) : bool :=
  match fs_lookup fs p with Some Dir => true | _ => false end.

Definition fs_isfile (fs : filesystem) (p : path) : bool :=
  match fs_lookup fs p with Some (File _) => true | _ => false end.

Definition fs_delete (p : path) (fs : filesystem) : filesystem :=
  filter (fun e => negb (path_eqb (fst e) p)) fs.

Definition fs_set (p : path) (n : node) (fs : filesystem) : filesystem :=
  (p, n) :: fs_delete p fs.

Definition fs_remove_tree (p : path) (fs : filesystem) : filesystem :=
  filter (fun e => negb (is_prefix p (fst e))) fs.

Definition fs_listdir (fs : filesystem) (p : path) : list string :=
  nodup string_dec
    (flat_map (fun e => match below p (fst e) with
                        | Some [n] => [n]
                        | _ => []
                        end) fs).

(** Entries of the tree rooted at [src], re-rooted at [dst]. *)
Definition fs_subtree (src dst : path) (fs : filesystem) : filesystem :=
  flat_map (fun e => match below src (fst e) with
                     | Some rest => [((dst ++ rest)%list, snd e)]
                     | None => []
                     end) fs.

Definition fs_add_all (entries : filesystem) (fs : filesystem) : filesystem :=
  fold_left (fun acc e => fs_set (fst e) (snd e) acc) entries fs.

(** Every ancestor of [p], outermost first, and [p] itself. *)
Fixpoint ancestors_and_self (p : path) : list path :=
  match p with
  | [] => [[]]
  | a :: r => [] :: map (cons a) (ancestors_and_self r)
  end.

Definition fs_mkdirs (p : path) (fs : filesystem) : filesystem :=
  fold_left (fun acc q => if fs_exists acc q then acc else fs_set q Dir acc)
            (ancestors_and_self p) fs.

(** ** Release descriptors, the child process, events *)

Record asset := { name : string; browser_download_url : string }.

Record release := { tag_name : string; assets : list asset }.

(** The [Popen] handle held in [self.process]; [exited] is [poll() is not None]. *)
Record popen := { pid : nat; exited : bool }.

Record cdn_dir := { cdn_path : path; cdn_version : string; cdn_version_num : Z }.

Inductive event :=
| EvFetch (url : string)
| EvMakedirs (p : path)
| EvRmtree (p : path)
| EvCopy (src dst : path)
| EvCopytree (src dst : path)
| EvWrite (p : path)
| EvDownload (url : string) (dst : path)
| EvExtract (zip dst : path)
| EvRemove (p : path)
| EvPopen (entry cwd : path)
| EvTerminate (pid : nat)
| EvKill (pid : nat).

Inductive download_outcome :=
| DlRequestFails                  (* the request or its status check raises *)
| DlStreamFails (partial : string) (* the stream breaks after [partial] was written *)
| DlComplete (data : string).

Inductive unzip_outcome :=
| BadZip                                          (* the archive cannot be opened *)
| Extracted (entries : filesystem) (complete : bool).

Inductive terminate_outcome := TermExits | TermTimeout | TermError.

(** What lies outside the program: the outcome of every fallible primitive. *)
Record environment := {
  fetch_release : nat -> option release;  (* reply to the release query at a given time *)
  download : string -> download_outcome;
  unzip : string -> unzip_outcome;
  copy_fails : path -> path -> bool;
  rmtree_fails : path -> bool;
  remove_fails : path -> bool;
  mkdir_fails : path -> bool;
  read_fails : path -> option nat;        (* reading raises after that many lines *)
  write_fails : path -> bool;
  popen_fails : path -> bool;
  spawn_pid : path -> nat;
  terminate : nat -> terminate_outcome;
  isoformat_now : nat -> string;
  flag_raised : nat -> bool;              (* the webhook leaves its marker during the sleep *)
  child_exits : nat -> bool;              (* the child dies during the sleep *)
  interrupted : nat -> bool               (* an interrupt arrives during the sleep *)
}.

(** The mutable state: the disk, the clock, [self.process] and the event log. *)
Record world := {
  disk : filesystem;
  clock : nat;
  process : option popen;
  log : list event
}.

Definition with_fs (f : filesystem) (w : world) : world :=
  {| disk := f; clock := clock w; process := process w; log := log w |}.

Definition with_process (p : option popen) (w : world) : world :=
  {| disk := disk w; clock := clock w; process := p; log := log w |}.

Definition with_clock (t : nat) (w : world) : world :=
  {| disk := disk w; clock := t; process := process w; log := log w |}.

Definition with_event (e : event) (w : world) : world :=
  {| disk := disk w; clock := clock w; process := process w; log := (log w ++ [e])%list |}.

(** ** Exceptions and the state monad *)

Inductive exn := ValueError | IndexError | TypeError | OSError | KeyboardInterrupt.

Inductive outcome (A : Type) :=
| Ok (a : A) (w : world)
| Raise (e : exn) (w : world).
Arguments Ok {A} a w.
Arguments Raise {A} e w.

Definition M (A : Type) := world -> outcome A.

Definition ret {A} (a : A) : M A := fun w => Ok a w.

Definition bind {A B} (m : M A) (k : A -> M B) : M B :=
  fun w => match m w with
           | Ok a w' => k a w'
           | Raise e w' => Raise e w'
           end.

Definition raise {A} (e : exn) : M A := fun w => Raise e w.

(** [class Exception]: everything but [KeyboardInterrupt]. *)
Definition is_exception (e : exn) : bool :=
  match e with KeyboardInterrupt => false | _ => true end.

(** [try: m except Exception: h] *)
Definition try_except {A} (m : M A) (h : M A) : M A :=
  fun w => match m w with
           | Ok a w' => Ok a w'
           | Raise e w' => if is_exception e then h w' else Raise e w'
           end.

(** [try: m except: h] *)
Definition try_bare {A} (m : M A) (h : M A) : M A :=
  fun w => match m w with
           | Ok a w' => Ok a w'
           | Raise _ w' => h w'
           end.

Definition get_fs : M filesystem := fun w => Ok (disk w) w.
Definition put_fs (f : filesystem) : M unit := fun w => Ok tt (with_fs f w).
Definition get_process : M (option popen) := fun w => Ok (process w) w.
Definition put_process (p : option popen) : M unit := fun w => Ok tt (with_process p w).
Definition get_clock : M nat := fun w => Ok (clock w) w.
Definition emit (e : event) : M unit := fun w => Ok tt (with_event e w).

Declare Scope monad_scope.
Delimit Scope monad_scope with monad.
Notation "x <- m ;; k" := (bind m (fun x => k))
  (at level 61, m at next level, right associativity) : monad_scope.
Notation "m ;; k" := (bind m (fun _ => k))
  (at level 61, right associativity) : monad_scope.
Open Scope monad_scope.

(** ** The loader object *)

Record CDNLoader := {
  repo_owner : string;
  repo_name : string;
  api_url : string;
  install_dir : string;
  current_path : path
}.

(** [__init__]; [cwd] is [os.getcwd()]. [self.process = None] is the initial
    [process] of the world. *)
Definition init (owner repo install : string) (cwd : path) : CDNLoader :=
  {| repo_owner := owner;
     repo_name := repo;
     api_url := "https://api.github.com/repos/" ++ owner ++ "/" ++ repo
                ++ "/releases/latest";
     install_dir := install;
     current_path := cwd |}.

(** [cdn_dirs.sort(key=lambda x: x['version_num'], reverse=True)]: a stable
    sort, elements with equal keys keep their order. *)
Fixpoint insert_desc (x : cdn_dir) (l : list cdn_dir) : list cdn_dir :=
  match l with
  | [] => [x]
  | y :: r =>
      if (cdn_version_num y <=? cdn_version_num x)%Z then x :: l
      else y :: insert_desc x r
  end.

Definition sort_desc (l : list cdn_dir) : list cdn_dir :=
  fold_right insert_desc [] l.

Section Loader.

Variable self : CDNLoader.
Variable env : environment.

(** *** Operating-system primitives *)

Definition join (p : path) (n : string) : path := (p ++ [n])%list.

(** [shutil.rmtree(p, ignore_errors=...)] *)
Definition shutil_rmtree (ignore_errors : bool) (p : path) : M unit :=
  emit (EvRmtree p) ;;
  f <- get_fs ;;
  if rmtree_fails env p || negb (fs_isdir f p)
  then (if ignore_errors then ret tt else raise OSError)
  else put_fs (fs_remove_tree p f).

(** [shutil.copy2(src, dst)]; a directory [dst] receives the file under its
    own name. *)
Definition shutil_copy2 (src dst : path) : M unit :=
  emit (EvCopy src dst) ;;
  f <- get_fs ;;
  let target := if fs_isdir f dst then join dst (basename src) else dst in
  match fs_lookup f src with
  | Some (File data) =>
      if copy_fails env src dst || negb (fs_isdir f (parent target))
         || fs_isdir f target
      then raise OSError
      else put_fs (fs_set target (File data) f)
  | _ => raise OSError
  end.

(** [shutil.copytree(src, dst, dirs_exist_ok=True)] *)
Definition shutil_copytree (src dst : path) : M unit :=
  emit (EvCopytree src dst) ;;
  f <- get_fs ;;
  if copy_fails env src dst || negb (fs_isdir f src) || fs_isfile f dst
  then raise OSError
  else put_fs (fs_add_all (fs_subtree src dst f) (fs_mkdirs dst f)).

(** [os.makedirs(p, exist_ok=True)] *)
Definition os_makedirs (p : path) : M unit :=
  emit (EvMakedirs p) ;;
  f <- get_fs ;;
  if mkdir_fails env p || fs_isfile f p then raise OSError
  else put_fs (fs_mkdirs p f).

(** [os.remove(p)] *)
Definition os_remove (p : path) : M unit :=
  emit (EvRemove p) ;;
  f <- get_fs ;;
  if remove_fails env p || negb (fs_isfile f p) then raise OSError
  else put_fs (fs_delete p f).

(** [with open(p, 'w') as f: f.write(data)] *)
Definition write_file (p : path) (data : string) : M unit :=
  emit (EvWrite p) ;;
  f <- get_fs ;;
  if write_fails env p || fs_isdir f p || negb (fs_isdir f (parent p))
  then raise OSError
  else put_fs (fs_set p (File data) f).

(** [with open(p, 'r') as f: for line in f: ...]: the lines the loop body
    sees, and whether the read then raises. *)
Definition read_lines (f : filesystem) (p : path) : list string * bool :=
  match fs_lookup f p with
  | Some (File data) =>
      match read_fails env p with
      | None => (file_lines data, false)
      | Some n => (firstn n (file_lines data), true)
      end
  | _ => ([], true)
  end.

(** *** get_newest_cdn (lines 22-54) *)

Fixpoint scan_files (files : list string) (cdn_dirs : list cdn_dir)
  : M (list cdn_dir) :=
  match files with
  | [] => ret cdn_dirs
  | file :: rest =>
      f <- get_fs ;;
      match cdn_pattern file with
      | Some version =>
          if fs_isdir f (join (current_path self) file) then
            match version_num version with
            | Some n =>
                scan_files rest
                  (cdn_dirs ++ [{| cdn_path := join (current_path self) file;
                                   cdn_version := version;
                                   cdn_version_num := n |}])%list
            | None => raise ValueError
            end
          else scan_files rest cdn_dirs
      | None => scan_files rest cdn_dirs
      end
  end.

Fixpoint prune (olds : list cdn_dir) : M unit :=
  match olds with
  | [] => ret tt
  | old_cdn :: rest =>
      try_except (shutil_rmtree false (cdn_path old_cdn)) (ret tt) ;;
      prune rest
  end.

Definition get_newest_cdn : M (option cdn_dir) :=
  f <- get_fs ;;
  if negb (fs_exists f (current_path self)) then ret None else
  if negb (fs_isdir f (current_path self)) then raise OSError else
  let files := fs_listdir f (current_path self) in
  cdn_dirs <- scan_files files [] ;;
  match cdn_dirs with
  | [] => ret None
  | _ =>
      match sort_desc cdn_dirs with
      | [] => raise IndexError
      | newest :: olds => prune olds ;; ret (Some newest)
      end
  end.

(** *** backup_persistent_files (lines 56-81) *)

Definition backup_persistent_files (cdn : path) : M (dict * path) :=
  let backup_dir := join (current_path self) "cdn_backup_temp" in
  os_makedirs backup_dir ;;
  let env_file := join cdn ".env" in
  f <- get_fs ;;
  let backup_content :=
    if fs_exists f env_file
    then parse_env (fst (read_lines f env_file)) []
    else [] in
  let db_file := join cdn "database.db" in
  (if fs_exists f db_file then shutil_copy2 db_file backup_dir else ret tt) ;;
  let uploads_dir := join cdn "uploads" in
  f' <- get_fs ;;
  (if fs_exists f' uploads_dir
   then shutil_copytree uploads_dir (join backup_dir "uploads")
   else ret tt) ;;
  ret (backup_content, backup_dir).

(** *** restore_env_file (lines 97-122) *)

Definition restore_env_file (cdn : path) (backup_content : dict) : M unit :=
  match backup_content with
  | [] => ret tt
  | _ =>
      let env_file := join cdn ".env" in
      f <- get_fs ;;
      let existing_content :=
        if fs_exists f env_file
        then parse_env (fst (read_lines f env_file)) []
        else [] in
      let merged_content := dict_merge existing_content backup_content in
      t <- get_clock ;;
      try_except
        (write_file env_file (render_env (isoformat_now env t) merged_content))
        (ret tt)
  end.

(** *** restore_persistent_files (lines 83-95) *)

Definition restore_persistent_files (cdn : path) (env_backup : dict)
    (backup_dir : path) : M unit :=
  (match env_backup with
   | [] => ret tt
   | _ => restore_env_file cdn env_backup
   end) ;;
  let db_backup := join backup_dir "database.db" in
  f <- get_fs ;;
  (if fs_exists f db_backup
   then shutil_copy2 db_backup (join cdn "database.db")
   else ret tt) ;;
  let uploads_backup := join backup_dir "uploads" in
  f' <- get_fs ;;
  (if fs_exists f' uploads_backup
   then shutil_copytree uploads_backup (join cdn "uploads")
   else ret tt) ;;
  shutil_rmtree true backup_dir.

(** *** get_latest_release (lines 124-131) *)

Definition get_latest_release : M (option release) :=
  emit (EvFetch (api_url self)) ;;
  t <- get_clock ;;
  ret (fetch_release env t).

(** *** download_progress (lines 133-157) *)

Definition download_progress (url : string) (output_path : path) : M bool :=
  emit (EvDownload url output_path) ;;
  match download env url with
  | DlRequestFails => ret false
  | DlStreamFails partial =>
      try_except (write_file output_path partial ;; ret false) (ret false)
  | DlComplete data =>
      try_except (write_file output_path data ;; ret true) (ret false)
  end.

(** *** download_and_extract (lines 159-184) *)

(** [with zipfile.ZipFile(zip, 'r') as z: z.extractall(dst)] *)
Definition zip_extractall (zip dst : path) : M unit :=
  emit (EvExtract zip dst) ;;
  f <- get_fs ;;
  match fs_lookup f zip with
  | Some (File data) =>
      match unzip env data with
      | BadZip => raise OSError
      | Extracted entries complete =>
          put_fs (fs_add_all (fs_subtree [] dst entries) (fs_mkdirs dst f)) ;;
          if complete then ret tt else raise OSError
      end
  | _ => raise OSError
  end.

Definition download_and_extract (rel : release) (version : string)
  : M (option path) :=
  match find (fun a => endswith ".zip" (name a)) (assets rel) with
  | None => ret None
  | Some zip_asset =>
      let temp_zip :=
        join (current_path self) ("cdn-" ++ version ++ "-temp.zip") in
      ok <- download_progress (browser_download_url zip_asset) temp_zip ;;
      if negb ok then ret None else
      let extract_dir := join (current_path self) ("cdn-" ++ version) in
      try_except
        (zip_extractall temp_zip extract_dir ;;
         os_remove temp_zip ;;
         ret (Some extract_dir))
        (f <- get_fs ;;
         (if fs_exists f temp_zip then os_remove temp_zip else ret tt) ;;
         ret None)
  end.

(** *** stop_cdn (lines 186-201) *)

Definition stop_cdn : M unit :=
  pr <- get_process ;;
  match pr with
  | Some p =>
      if negb (exited p) then
        emit (EvTerminate (pid p)) ;;
        (match terminate env (pid p) with
         | TermExits => ret tt
         | TermTimeout => emit (EvKill (pid p))
         | TermError => ret tt
         end) ;;
        put_process None
      else ret tt
  | None => ret tt
  end.

(** *** launch_cdn (lines 203-220) *)

Definition launch_cdn (cdn : path) : M (option popen) :=
  let entry_path := join cdn "main.py" in
  f <- get_fs ;;
  if fs_exists f entry_path then
    emit (EvPopen entry_path cdn) ;;
    if popen_fails env cdn then ret None
    else
      let p := {| pid := spawn_pid env cdn; exited := false |} in
      put_process (Some p) ;;
      ret (Some p)
  else ret None.

(** *** check_and_update (lines 222-269) *)

Definition check_and_update : M unit :=
  latest_release <- get_latest_release ;;
  newest <- get_newest_cdn ;;
  backup <- match newest with
            | Some n =>
                b <- backup_persistent_files (cdn_path n) ;;
                ret (fst b, Some (snd b))
            | None => ret ([], None)
            end ;;
  let env_backup : dict := fst backup in
  let backup_dir : option path := snd backup in
  match latest_release with
  | None =>
      pr <- get_process ;;
      match newest, pr with
      | Some n, None => launch_cdn (cdn_path n) ;; ret tt
      | _, _ => ret tt
      end
  | Some rel =>
      let latest_version := tag_name rel in
      match version_num latest_version with
      | None => raise ValueError
      | Some latest_version_num =>
          let up_to_date :=
            match newest with
            | Some n => (cdn_version_num n =? latest_version_num)%Z
            | None => false
            end in
          if up_to_date then
            pr <- get_process ;;
            match newest, pr with
            | Some n, None => launch_cdn (cdn_path n) ;; ret tt
            | Some n, Some p =>
                if exited p then launch_cdn (cdn_path n) ;; ret tt else ret tt
            | None, _ => ret tt
            end
          else
            stop_cdn ;;
            new_cdn_path <- download_and_extract rel latest_version ;;
            match new_cdn_path with
            | None =>
                match newest with
                | Some n => launch_cdn (cdn_path n) ;; ret tt
                | None => ret tt
                end
            | Some new_path =>
                (match newest with
                 | Some n =>
                     (match backup_dir with
                      | Some b => restore_persistent_files new_path env_backup b
                      | None => raise TypeError
                      end) ;;
                     try_except (shutil_rmtree false (cdn_path n)) (ret tt)
                 | None => ret tt
                 end) ;;
                launch_cdn new_path ;;
                ret tt
            end
      end
  end.

(** *** run_with_updates (lines 271-308) *)

Definition flag_file : path := join (current_path self) "UPDATE_REQUESTED".

(** [time.sleep(secs)]: the clock advances and the outside world acts. *)
Definition time_sleep (secs : nat) : M unit :=
  fun w =>
    let t := clock w in
    let w1 := with_clock (t + secs) w in
    let w2 := if flag_raised env t
              then with_fs (fs_set flag_file (File "") (disk w1)) w1
              else w1 in
    let w3 := match process w2 with
              | Some p =>
                  if child_exits env t
                  then with_process (Some {| pid := pid p; exited := true |}) w2
                  else w2
              | None => w2
              end in
    if interrupted env t then Raise KeyboardInterrupt w3 else Ok tt w3.

(** One turn of the [while True] loop; the result is the new [last_check]. *)
Definition loop_body (check_interval last_check : nat) : M nat :=
  now <- get_clock ;;
  f <- get_fs ;;
  last_check' <-
    (if fs_exists f flag_file then
       try_bare (os_remove flag_file) (ret tt) ;;
       check_and_update ;;
       ret now
     else if (check_interval <=? now - last_check)%nat then
       check_and_update ;;
       ret now
     else ret last_check) ;;
  pr <- get_process ;;
  (match pr with
   | Some p =>
       if exited p then
         newest <- get_newest_cdn ;;
         match newest with
         | Some n => launch_cdn (cdn_path n) ;; ret tt
         | None => ret tt
         end
       else ret tt
   | None => ret tt
   end) ;;
  time_sleep 10 ;;
  ret last_check'.

(** The loop, cut after [fuel] turns: [None] means it is still running. *)
Fixpoint main_loop (check_interval fuel last_check : nat) (w : world)
  : option (exn * world) :=
  match fuel with
  | O => None
  | S fuel' =>
      match loop_body check_interval last_check w with
      | Ok last_check' w' => main_loop check_interval fuel' last_check' w'
      | Raise e w' => Some (e, w')
      end
  end.

(** The [except KeyboardInterrupt] handler. *)
Definition shutdown : M unit :=
  stop_cdn ;;
  try_bare
    (f <- get_fs ;;
     if fs_exists f flag_file then os_remove flag_file else ret tt)
    (ret tt).

Definition run_with_updates (check_interval fuel : nat) (w : world)
  : option (outcome unit) :=
  match check_and_update w with
  | Raise e w' => Some (Raise e w')
  | Ok _ w1 =>
      match main_loop check_interval fuel 0 w1 with
      | None => None
      | Some (KeyboardInterrupt, w2) => Some (shutdown w2)
      | Some (e, w2) => Some (Raise e w2)
      end
  end.

End Loader.

(** ** Vocabulary of the statements *)

(** The number a run of digits denotes, most significant digit first. *)
Fixpoint dval (acc : Z) (s : string) : Z :=
  match s with
  | EmptyString => acc
  | String c r => dval (10 * acc + digit_val c) r
  end.

Definition width (s : string) : Z := Z.of_nat (String.length s).

(** No leading zero, unless the run is the single digit 0. *)
Definition canonical (s : string) : bool :=
  match s with
  | String "0" (String _ _) => false
  | _ => true
  end.

(** A well-formed identifier: three non-empty runs of digits. *)
Definition digit_run (s : string) : Prop := all_digits s = true /\ s <> "".

Definition dotted (a b c : string) : string := a ++ "." ++ b ++ "." ++ c.

Definition newline : string := String "010" "".

(** A dictionary has unique keys. *)
Definition dict_wf (d : dict) : Prop := NoDup (map fst d).

(** The configuration the loader reads from a file (the empty one when the
    file is absent). *)
Definition stored_config (env : environment) (f : filesystem) (p : path) : dict :=
  if fs_exists f p then parse_env (fst (read_lines env f p)) [] else [].

(** Nothing exists at [p] or below it. *)
Definition absent_tree (f : filesystem) (p : path) : Prop :=
  forall q, is_prefix p q = true -> fs_lookup f q = None.

Definition outcome_world {A} (r : outcome A) : world :=
  match r with Ok _ w => w | Raise _ w => w end.

(** ** Concrete scenarios *)

(** An environment in which nothing fails, the release query excepted. *)
Definition calm : environment :=
  {| fetch_release := fun _ => None;
     download := fun _ => DlRequestFails;
     unzip := fun _ => BadZip;
     copy_fails := fun _ _ => false;
     rmtree_fails := fun _ => false;
     remove_fails := fun _ => false;
     mkdir_fails := fun _ => false;
     read_fails := fun _ => None;
     write_fails := fun _ => false;
     popen_fails := fun _ => false;
     spawn_pid := fun _ => 4242%nat;
     terminate := fun _ => TermExits;
     isoformat_now := fun _ => "2025-01-01T00:00:00";
     flag_raised := fun _ => false;
     child_exits := fun _ => false;
     interrupted := fun _ => false |}.

Definition loader : CDNLoader := init "oblongboot" "siteadmin" "siteadmin" ["srv"].

(** A new bundle shipping the template configuration a=1, b=2. *)
Definition world_merge : world :=
  {| disk := [ (["srv"], Dir);
               (["srv"; "cdn-1.3.0"], Dir);
               (["srv"; "cdn-1.3.0"; ".env"], File ("a=1" ++ newline ++ "b=2" ++ newline)) ];
     clock := 0;
     process := None;
     log := [] |}.

Definition with_release (r : option release) (e : environment) : environment :=
  {| fetch_release := fun _ => r;
     download := download e; unzip := unzip e; copy_fails := copy_fails e;
     rmtree_fails := rmtree_fails e; remove_fails := remove_fails e;
     mkdir_fails := mkdir_fails e; read_fails := read_fails e;
     write_fails := write_fails e; popen_fails := popen_fails e;
     spawn_pid := spawn_pid e; terminate := terminate e;
     isoformat_now := isoformat_now e; flag_raised := flag_raised e;
     child_exits := child_exits e; interrupted := interrupted e |}.

Definition with_download (d : download_outcome) (e : environment) : environment :=
  {| fetch_release := fetch_release e;
     download := fun _ => d; unzip := unzip e; copy_fails := copy_fails e;
     rmtree_fails := rmtree_fails e; remove_fails := remove_fails e;
     mkdir_fails := mkdir_fails e; read_fails := read_fails e;
     write_fails := write_fails e; popen_fails := popen_fails e;
     spawn_pid := spawn_pid e; terminate := terminate e;
     isoformat_now := isoformat_now e; flag_raised := flag_raised e;
     child_exits := child_exits e; interrupted := interrupted e |}.

Definition with_copy_failure (e : environment) : environment :=
  {| fetch_release := fetch_release e;
     download := download e; unzip := unzip e; copy_fails := fun _ _ => true;
     rmtree_fails := rmtree_fails e; remove_fails := remove_fails e;
     mkdir_fails := mkdir_fails e; read_fails := read_fails e;
     write_fails := write_fails e; popen_fails := popen_fails e;
     spawn_pid := spawn_pid e; terminate := terminate e;
     isoformat_now := isoformat_now e; flag_raised := flag_raised e;
     child_exits := child_exits e; interrupted := interrupted e |}.

Definition bundle_zip : asset :=
  {| name := "siteadmin.zip";
     browser_download_url := "https://example.org/siteadmin.zip" |}.

Definition release_of (tag : string) : release :=
  {| tag_name := tag; assets := [bundle_zip] |}.

(** Version 1.0.0 is installed, with a data file; no child is running. *)
Definition world_installed : world :=
  {| disk := [ (["srv"], Dir);
               (["srv"; "cdn-1.0.0"], Dir);
               (["srv"; "cdn-1.0.0"; "main.py"], File "app");
               (["srv"; "cdn-1.0.0"; "database.db"], File "DB") ];
     clock := 0;
     process := None;
     log := [] |}.

(** The same, holding the handle of a child that has exited. *)
Definition world_dead_child : world :=
  with_process (Some {| pid := 7; exited := true |}) world_installed.

(** A new version was extracted and the holding area keeps the data file. *)
Definition world_restore : world :=
  {| disk := [ (["srv"], Dir);
               (["srv"; "cdn-1.1.0"], Dir);
               (["srv"; "cdn_backup_temp"], Dir);
               (["srv"; "cdn_backup_temp"; "database.db"], File "DB") ];
     clock := 0;
     process := None;
     log := [] |}.

(** A new version was extracted and there is no holding area. *)
Definition world_no_holding : world :=
  {| disk := [ (["srv"], Dir); (["srv"; "cdn-1.1.0"], Dir) ];
     clock := 0;
     process := None;
     log := [] |}.

(** The download of the bundle breaks in mid-stream. *)
Definition env_broken_stream : environment :=
  with_download (DlStreamFails "PK-partial")
    (with_release (Some (release_of "1.1.0")) calm).

(** [file] is an immediate child of the working root, a directory, and its
    name matches the version pattern. *)
Definition matching (self : CDNLoader) (f : filesystem) (file : string) : Prop :=
  In file (fs_listdir f (current_path self)) /\
  cdn_pattern file <> None /\
  fs_isdir f (join (current_path self) file) = true.

(** The entry the scan of get_newest_cdn records for one name, if any. *)
Definition candidate (self : CDNLoader) (f : filesystem) (file : string)
  : option cdn_dir :=
  match cdn_pattern file with
  | Some version =>
      if fs_isdir f (join (current_path self) file) then
        match version_num version with
        | Some n => Some {| cdn_path := join (current_path self) file;
                            cdn_version := version;
                            cdn_version_num := n |}
        | None => None
        end
      else None
  | None => None
  end.

Definition candidates (self : CDNLoader) (f : filesystem) (files : list string)
  : list cdn_dir :=
  flat_map (fun file => match candidate self f file with
                        | Some d => [d]
                        | None => []
                        end) files.

(** Version 1.10.0 next to 1.9.0 and 1.2.3, a stray file and a directory
    that does not match. *)
Definition world_three_versions : world :=
  {| disk := [ (["srv"], Dir);
               (["srv"; "cdn-1.2.3"], Dir);
               (["srv"; "cdn-1.10.0"], Dir);
               (["srv"; "cdn-1.10.0"; "main.py"], File "app");
               (["srv"; "cdn-1.9.0"], Dir);
               (["srv"; "cdn-9.9.9"], File "not a directory");
               (["srv"; "cdn_backup_temp"], Dir) ];
     clock := 0;
     process := None;
     log := [] |}.

(** The order the sort of get_newest_cdn establishes. *)
Definition below_key (x y : cdn_dir) : Prop :=
  (cdn_version_num y <= cdn_version_num x)%Z.

(** The holding area of a loader. *)
Definition holding_area (self : CDNLoader) : path :=
  join (current_path self) "cdn_backup_temp".

(** Since [w0], no deletion of [b] was attempted. *)
Definition no_rmtree_since (b : path) (w0 w : world) : Prop :=
  exists l, log w = (log w0 ++ l)%list /\ ~ In (EvRmtree b) l.

(** No directory exists at [b]. *)
Definition dir_gone (b : path) (w : world) : Prop :=
  fs_isdir (disk w) b = false.

(** [m], started in a state satisfying [P], ends in a state satisfying [Q]
    when it returns and [E] when it raises. *)
Definition hoare {A} (P : world -> Prop) (m : M A) (Q : A -> world -> Prop)
    (E : world -> Prop) : Prop :=
  forall w, P w -> match m w with
                   | Ok a w' => Q a w'
                   | Raise _ w' => E w'
                   end.

(** [m] preserves [P], whatever its outcome. *)
Definition keeps {A} (P : world -> Prop) (m : M A) : Prop :=
  hoare P m (fun _ => P) P.

(** Release 1.1.0 is available, downloads and extracts without error. *)
Definition env_update : environment :=
  {| fetch_release := fun _ => Some (release_of "1.1.0");
     download := fun _ => DlComplete "PK-bundle";
     unzip := fun _ => Extracted [ (["main.py"], File "app-1.1.0") ] true;
     copy_fails := fun _ _ => false;
     rmtree_fails := fun _ => false;
     remove_fails := fun _ => false;
     mkdir_fails := fun _ => false;
     read_fails := fun _ => None;
     write_fails := fun _ => false;
     popen_fails := fun _ => false;
     spawn_pid := fun _ => 4242%nat;
     terminate := fun _ => TermExits;
     isoformat_now := fun _ => "2025-01-01T00:00:00";
     flag_raised := fun _ => false;
     child_exits := fun _ => false;
     interrupted := fun _ => false |}.

(** ** Vocabulary of the further properties *)

(** [s] holds no line terminator. *)
Definition no_break (s : string) : bool :=
  negb (contains "010" s) && negb (contains "013" s).

(** A key and a value as the loops over a configuration file produce them:
    stripped, on one line, the key without [=] and not starting a comment. *)
Definition entry_ok (kv : string * string) : Prop :=
  no_break (fst kv) = true /\ no_break (snd kv) = true /\
  strip (fst kv) = fst kv /\ strip (snd kv) = snd kv /\
  contains "=" (fst kv) = false /\ startswith "#" (fst kv) = false.

(** One [f.write] of the loop of restore_env_file (line 120). *)
Definition env_entry_line (kv : string * string) : string :=
  fst kv ++ "=" ++ snd kv ++ newline.

(** The first character, if any, is not white space. *)
Definition head_ok (s : string) : Prop :=
  match s with
  | String c _ => is_space c = false
  | EmptyString => True
  end.

(** A target version holding a configuration, and a snapshot to restore. *)
Definition world_config : world :=
  {| disk := [ (["srv"], Dir);
               (["srv"; "cdn-1.3.0"], Dir);
               (["srv"; "cdn-1.3.0"; ".env"],
                File ("# template" ++ newline ++ "PORT = 80" ++ newline
                      ++ "  DEBUG=0 " ++ newline ++ "junk" ++ newline)) ];
     clock := 0;
     process := None;
     log := [] |}.

(** Since [w0], only events accepted by [ok] were logged. *)
Definition only_events (ok : event -> bool) (w0 w : world) : Prop :=
  exists l, log w = (log w0 ++ l)%list /\ forallb ok l = true.

(** [self.process] is what it was in [w0]. *)
Definition same_process (w0 w : world) : Prop := process w = process w0.

(** The disk is what it was in [w0]. *)
Definition same_disk (w0 w : world) : Prop := disk w = disk w0.

(** The actions of a cycle that does not update: the release query, the
    pruning of discovery, the backup and a launch. *)
Definition passive (e : event) : bool :=
  match e with
  | EvFetch _ | EvRmtree _ | EvMakedirs _ | EvCopy _ _ | EvCopytree _ _
  | EvPopen _ _ => true
  | _ => false
  end.

(** The same, a launch excepted. *)
Definition passive_no_launch (e : event) : bool :=
  match e with
  | EvFetch _ | EvRmtree _ | EvMakedirs _ | EvCopy _ _ | EvCopytree _ _ => true
  | _ => false
  end.

(** No child is held that could still be running. *)
Definition no_live_child (w : world) : Prop :=
  match process w with
  | Some p => exited p = true
  | None => True
  end.

(** The actions of a cycle on a fresh install: everything but pruning, backup
    and restore. *)
Definition no_migration (e : event) : bool :=
  match e with
  | EvRmtree _ | EvMakedirs _ | EvCopy _ _ | EvCopytree _ _ => false
  | _ => true
  end.

(** The actions of a tick that makes no update check: the pruning of
    discovery and a launch. *)
Definition relaunch_only (e : event) : bool :=
  match e with
  | EvRmtree _ | EvPopen _ _ => true
  | _ => false
  end.

(** An interrupt arrives during the first sleep. *)
Definition env_interrupt : environment :=
  {| fetch_release := fun _ => None;
     download := fun _ => DlRequestFails;
     unzip := fun _ => BadZip;
     copy_fails := fun _ _ => false;
     rmtree_fails := fun _ => false;
     remove_fails := fun _ => false;
     mkdir_fails := fun _ => false;
     read_fails := fun _ => None;
     write_fails := fun _ => false;
     popen_fails := fun _ => false;
     spawn_pid := fun _ => 4242%nat;
     terminate := fun _ => TermTimeout;
     isoformat_now := fun _ => "2025-01-01T00:00:00";
     flag_raised := fun _ => true;
     child_exits := fun _ => false;
     interrupted := fun _ => true |}.

(** Nothing is installed yet. *)
Definition world_fresh : world :=
  {| disk := [ (["srv"], Dir); (["srv"; "notes.txt"], File "n") ];
     clock := 0;
     process := None;
     log := [] |}.

(** [m] raises [KeyboardInterrupt] only when [I] holds. *)
Definition interrupt_only_if {A} (I : Prop) (m : M A) : Prop :=
  forall w w', m w = Raise KeyboardInterrupt w' -> I.

(** The environment sends an interrupt at some time. *)
Definition interrupt_sent (env : environment) : Prop :=
  exists t, interrupted env t = true.





(** The bundle downloads, but the archive is corrupt. *)
Definition env_bad_zip : environment :=
  with_download (DlComplete "not a zip")
    (with_release (Some (release_of "1.1.0")) calm).





(** * Properties *)

(** ** Strings and digits *)

Lemma append_assoc (a b c : string) : (a ++ b) ++ c = a ++ (b ++ c).
Proof. induction a as [|x a IH]; simpl; [reflexivity | now rewrite IH]. Qed.

Lemma append_empty_r (a : string) : a ++ "" = a.
Proof. induction a as [|x a IH]; simpl; [reflexivity | now rewrite IH]. Qed.


Lemma is_empty_true (s : string) : is_empty s = true <-> s = "".
Proof. destruct s; simpl; split; congruence. Qed.

Lemma is_empty_false (s : string) : is_empty s = false <-> s <> "".
Proof. destruct s; simpl; split; congruence. Qed.

Lemma is_digit_range (c : ascii) :
  is_digit c = true <-> (48 <= nat_of_ascii c <= 57)%nat.
Proof.
  unfold is_digit. rewrite andb_true_iff, !Nat.leb_le. reflexivity.
Qed.

Lemma digit_not_space (c : ascii) : is_digit c = true -> is_space c = false.
Proof.
  rewrite is_digit_range. intros H. unfold is_space.
  apply orb_false_iff; split; apply andb_false_iff.
  - right. apply Nat.leb_gt. lia.
  - right. apply Nat.leb_gt. lia.
Qed.

Lemma digit_not_char (c d : ascii) :
  is_digit c = true -> is_digit d = false -> Ascii.eqb c d = false.
Proof.
  intros Hc Hd. destruct (Ascii.eqb_spec c d); [congruence | reflexivity].
Qed.

Lemma digit_val_range (c : ascii) :
  is_digit c = true -> (0 <= digit_val c <= 9)%Z.
Proof. rewrite is_digit_range. unfold digit_val. lia. Qed.

Lemma digit_val_inj (c d : ascii) :
  is_digit c = true -> is_digit d = true -> digit_val c = digit_val d -> c = d.
Proof.
  intros _ _ H. unfold digit_val in H.
  assert (E : nat_of_ascii c = nat_of_ascii d) by lia.
  rewrite <- (ascii_nat_embedding c), <- (ascii_nat_embedding d). now rewrite E.
Qed.

Lemma all_digits_app (a b : string) :
  all_digits (a ++ b) = all_digits a && all_digits b.
Proof.
  induction a as [|x a IH]; simpl; [reflexivity |].
  now rewrite IH, andb_assoc.
Qed.

Lemma strip_prefix_spec (p s r : string) :
  strip_prefix p s = Some r <-> s = p ++ r.
Proof.
  revert s. induction p as [|a p IH]; intros s; simpl.
  - split; congruence.
  - destruct s as [|b s].
    + split; discriminate.
    + destruct (Ascii.eqb_spec a b) as [->|Hne].
      * rewrite IH. split; congruence.
      * split; [discriminate | congruence].
Qed.

Lemma lstrip_digits (s : string) : all_digits s = true -> lstrip s = s.
Proof.
  destruct s as [|c r]; simpl; [reflexivity |].
  intros H. apply andb_true_iff in H as [Hc _].
  now rewrite (digit_not_space _ Hc).
Qed.

Lemma rstrip_digits (s : string) : all_digits s = true -> rstrip s = s.
Proof.
  induction s as [|c r IH]; simpl; [reflexivity |].
  intros H. apply andb_true_iff in H as [Hc Hr].
  rewrite (digit_not_space _ Hc), (IH Hr). reflexivity.
Qed.

Lemma strip_digits (s : string) : all_digits s = true -> strip s = s.
Proof.
  intros H. unfold strip. rewrite (lstrip_digits _ H). now apply rstrip_digits.
Qed.

Lemma int_digits_all_digits (s : string) (acc : Z) (prev : bool) :
  all_digits s = true -> (s <> "" \/ prev = true) ->
  int_digits acc prev s = Some (dval acc s).
Proof.
  revert acc prev. induction s as [|c r IH]; intros acc prev Hd Hne; simpl.
  - destruct Hne as [Hne | ->]; [congruence | reflexivity].
  - simpl in Hd. apply andb_true_iff in Hd as [Hc Hr].
    rewrite Hc. apply IH; auto.
Qed.

Lemma py_int_digits (s : string) :
  all_digits s = true -> s <> "" -> py_int s = Some (dval 0 s).
Proof.
  intros Hd Hne. unfold py_int. rewrite (strip_digits _ Hd).
  destruct s as [|c r]; [congruence |].
  assert (Hc : is_digit c = true) by (simpl in Hd; now apply andb_true_iff in Hd).
  assert (E : int_digits 0 false (String c r) = Some (dval 0 (String c r)))
    by (apply int_digits_all_digits; auto).
  destruct c as [[] [] [] [] [] [] [] []]; try exact E; discriminate Hc.
Qed.

Lemma dval_app (a b : string) (acc : Z) :
  dval acc (a ++ b) = dval (dval acc a) b.
Proof. revert acc. induction a as [|x a IH]; intros acc; simpl; auto. Qed.

Lemma dval_shift (s : string) (acc : Z) :
  dval acc s = (acc * 10 ^ width s + dval 0 s)%Z.
Proof.
  unfold width. revert acc. induction s as [|c r IH]; intros acc.
  - simpl. lia.
  - cbn [dval String.length]. rewrite (IH (10 * acc + digit_val c)%Z), (IH (10 * 0 + digit_val c)%Z).
    rewrite Nat2Z.inj_succ, Z.pow_succ_r by lia. ring.
Qed.

Lemma dval_bound (s : string) :
  all_digits s = true -> (0 <= dval 0 s < 10 ^ width s)%Z.
Proof.
  unfold width. induction s as [|c r IH]; intros Hd.
  - simpl. lia.
  - simpl in Hd. apply andb_true_iff in Hd as [Hc Hr].
    specialize (IH Hr). pose proof (digit_val_range _ Hc) as Hv.
    cbn [dval String.length]. rewrite dval_shift. unfold width.
    rewrite Nat2Z.inj_succ, Z.pow_succ_r by lia. nia.
Qed.

Lemma dval_inj_same_width (a b : string) :
  all_digits a = true -> all_digits b = true ->
  String.length a = String.length b ->
  dval 0 a = dval 0 b -> a = b.
Proof.
  revert b. induction a as [|x a IH]; intros [|y b] Ha Hb Hl Hv;
    try discriminate; [reflexivity |].
  simpl in Ha, Hb. apply andb_true_iff in Ha as [Hx Ha].
  apply andb_true_iff in Hb as [Hy Hb].
  injection Hl as Hl.
  cbn [dval] in Hv. rewrite (dval_shift a), (dval_shift b) in Hv.
  unfold width in Hv. rewrite Hl in Hv.
  pose proof (dval_bound a Ha) as Ba. pose proof (dval_bound b Hb) as Bb.
  unfold width in Ba, Bb. rewrite Hl in Ba.
  pose proof (digit_val_range _ Hx) as Rx. pose proof (digit_val_range _ Hy) as Ry.
  set (P := (10 ^ Z.of_nat (String.length b))%Z) in *.
  assert (Ed : digit_val x = digit_val y) by nia.
  assert (Ev : dval 0 a = dval 0 b) by nia.
  f_equal; [now apply digit_val_inj | now apply IH].
Qed.

Lemma canonical_lower_bound (s : string) :
  all_digits s = true -> s <> "" -> canonical s = true ->
  s = "0" \/ (10 ^ (width s - 1) <= dval 0 s)%Z.
Proof.
  intros Hd Hne Hc. destruct s as [|c r]; [congruence |].
  simpl in Hd. apply andb_true_iff in Hd as [Hdc Hdr].
  destruct (Ascii.eqb_spec c "0") as [->|Hnz].
  - destruct r; [now left | discriminate Hc].
  - right. cbn [dval]. rewrite dval_shift.
    pose proof (dval_bound r Hdr) as Br.
    pose proof (digit_val_range _ Hdc) as Rc.
    assert (digit_val c <> 0)%Z.
    { intros E. apply Hnz. apply digit_val_inj; auto. }
    unfold width in *. cbn [String.length]. rewrite Nat2Z.inj_succ.
    replace (Z.succ (Z.of_nat (String.length r)) - 1)%Z
      with (Z.of_nat (String.length r)) by lia.
    nia.
Qed.

Lemma dval_inj_canonical (a b : string) :
  all_digits a = true -> all_digits b = true -> a <> "" -> b <> "" ->
  canonical a = true -> canonical b = true ->
  dval 0 a = dval 0 b -> a = b.
Proof.
  intros Ha Hb Na Nb Ca Cb Hv.
  assert (W : forall s, s <> "" -> (1 <= width s)%Z).
  { intros [|c r] H; [congruence |]. unfold width. cbn [String.length]. lia. }
  assert (Z0 : dval 0 "0" = 0%Z) by reflexivity.
  pose proof (dval_bound a Ha) as Ba. pose proof (dval_bound b Hb) as Bb.
  destruct (canonical_lower_bound a Ha Na Ca) as [->|La];
    destruct (canonical_lower_bound b Hb Nb Cb) as [->|Lb]; auto.
  - rewrite Z0 in Hv. pose proof (Z.pow_pos_nonneg 10 (width b - 1)) as P.
    specialize (W b Nb). lia.
  - rewrite Z0 in Hv. pose proof (Z.pow_pos_nonneg 10 (width a - 1)) as P.
    specialize (W a Na). lia.
  - apply dval_inj_same_width; auto.
    assert (E : width a = width b).
    { pose proof (W a Na). pose proof (W b Nb).
      destruct (Z.lt_trichotomy (width a) (width b)) as [L|[E|L]]; auto.
      - assert (10 ^ width a <= 10 ^ (width b - 1))%Z
          by (apply Z.pow_le_mono_r; lia). lia.
      - assert (10 ^ width b <= 10 ^ (width a - 1))%Z
          by (apply Z.pow_le_mono_r; lia). lia. }
    unfold width in E. lia.
Qed.

Lemma replace_char_app (o : ascii) (n a b : string) :
  replace_char o n (a ++ b) = replace_char o n a ++ replace_char o n b.
Proof.
  induction a as [|x a IH]; simpl; [reflexivity |].
  destruct (Ascii.eqb x o); rewrite IH; [now rewrite append_assoc | reflexivity].
Qed.

Lemma replace_dot_digits (s : string) :
  all_digits s = true -> replace_char "." "" s = s.
Proof.
  induction s as [|c r IH]; simpl; [reflexivity |].
  intros H. apply andb_true_iff in H as [Hc Hr].
  rewrite (digit_not_char c "." Hc eq_refl), (IH Hr). reflexivity.
Qed.

(** ** Version identifiers *)

Lemma version_num_dotted (a b c : string) :
  digit_run a -> digit_run b -> digit_run c ->
  version_num (dotted a b c) = Some (dval 0 (a ++ b ++ c)).
Proof.
  intros [Ha Na] [Hb Nb] [Hc Nc]. unfold version_num, dotted.
  assert (D : forall s, replace_char "." "" (String "." s) = replace_char "." "" s)
    by reflexivity.
  rewrite replace_char_app. cbn [append]. rewrite D, replace_char_app.
  cbn [append]. rewrite D, !replace_dot_digits by assumption.
  apply py_int_digits.
  - rewrite !all_digits_app, Ha, Hb, Hc. reflexivity.
  - destruct a; [congruence | discriminate].
Qed.

Lemma span_digits_spec (s d t : string) :
  span_digits s = (d, t) ->
  s = d ++ t /\ all_digits d = true /\
  match t with String c _ => is_digit c = false | EmptyString => True end.
Proof.
  revert d t. induction s as [|c r IH]; intros d t H; simpl in H.
  - injection H as <- <-. auto.
  - destruct (is_digit c) eqn:Hc.
    + destruct (span_digits r) as [d' t'] eqn:E. injection H as <- <-.
      destruct (IH _ _ eq_refl) as (-> & Hd & Ht). simpl. rewrite Hc. auto.
    + injection H as <- <-. simpl. auto.
Qed.

Lemma span_digits_app (d t : string) :
  all_digits d = true ->
  match t with String c _ => is_digit c = false | EmptyString => True end ->
  span_digits (d ++ t) = (d, t).
Proof.
  intros Hd Ht. induction d as [|c r IH]; simpl.
  - destruct t as [|c t]; [reflexivity |]. simpl. now rewrite Ht.
  - simpl in Hd. apply andb_true_iff in Hd as [Hc Hr].
    rewrite Hc, (IH Hr). reflexivity.
Qed.

Lemma cdn_pattern_sound (file version : string) :
  cdn_pattern file = Some version ->
  exists a b c,
    digit_run a /\ digit_run b /\ digit_run c /\
    version = dotted a b c /\
    (file = "cdn-" ++ version \/ file = "cdn-" ++ version ++ newline).
Proof.
  unfold cdn_pattern. intros H.
  destruct (strip_prefix "cdn-" file) as [r0|] eqn:E0; [|discriminate].
  apply strip_prefix_spec in E0.
  destruct (span_digits r0) as [a r1] eqn:Ea.
  destruct (is_empty a) eqn:Na; [discriminate |].
  destruct r1 as [|x r2]; [discriminate |].
  destruct (Ascii.eqb_spec x ".") as [->|Hx];
    [| destruct x as [[] [] [] [] [] [] [] []]; try discriminate H; congruence].
  destruct (span_digits r2) as [b r3] eqn:Eb.
  destruct (is_empty b) eqn:Nb; [discriminate |].
  destruct r3 as [|y r4]; [discriminate |].
  destruct (Ascii.eqb_spec y ".") as [->|Hy];
    [| destruct y as [[] [] [] [] [] [] [] []]; try discriminate H; congruence].
  destruct (span_digits r4) as [c r5] eqn:Ec.
  destruct (is_empty c) eqn:Nc; [discriminate |].
  apply span_digits_spec in Ea as (-> & Ha & _).
  apply span_digits_spec in Eb as (-> & Hb & _).
  apply span_digits_spec in Ec as (-> & Hc & _).
  apply is_empty_false in Na, Nb, Nc.
  destruct (String.eqb r5 "" || String.eqb r5 (String "010" "")) eqn:Eend;
    [| discriminate].
  injection H as <-.
  exists a, b, c. repeat split; auto.
  apply orb_true_iff in Eend as [E|E]; apply String.eqb_eq in E; subst r5.
  - left. subst file. unfold dotted.
    rewrite append_empty_r. reflexivity.
  - right. subst file. unfold dotted, newline.
    repeat (rewrite append_assoc; cbn [append]). reflexivity.
Qed.

Lemma cdn_pattern_complete (a b c : string) :
  digit_run a -> digit_run b -> digit_run c ->
  cdn_pattern ("cdn-" ++ dotted a b c) = Some (dotted a b c) /\
  cdn_pattern ("cdn-" ++ dotted a b c ++ newline) = Some (dotted a b c).
Proof.
  intros [Ha Na] [Hb Nb] [Hc Nc].
  apply is_empty_false in Na, Nb, Nc.
  assert (G : forall tail, tail = "" \/ tail = newline ->
            cdn_pattern ("cdn-" ++ dotted a b c ++ tail) = Some (dotted a b c)).
  { intros tail Ht. unfold cdn_pattern.
    assert (E0 : strip_prefix "cdn-" ("cdn-" ++ dotted a b c ++ tail)
                 = Some (dotted a b c ++ tail)) by (now apply strip_prefix_spec).
    rewrite E0. unfold dotted. rewrite !append_assoc. cbn [append].
    rewrite (span_digits_app a (String "." (b ++ String "." (c ++ tail))) Ha eq_refl).
    rewrite Na.
    rewrite (span_digits_app b (String "." (c ++ tail)) Hb eq_refl), Nb.
    assert (Et : span_digits (c ++ tail) = (c, tail)).
    { apply span_digits_app; auto. destruct Ht as [->| ->]; [exact I | reflexivity]. }
    rewrite Et, Nc. destruct Ht as [->| ->]; reflexivity. }
  split.
  - rewrite <- (G "") by auto. now rewrite append_empty_r.
  - apply G. auto.
Qed.

Lemma cdn_pattern_version_num (file version : string) :
  cdn_pattern file = Some version -> exists n, version_num version = Some n.
Proof.
  intros H. apply cdn_pattern_sound in H as (a & b & c & Ha & Hb & Hc & -> & _).
  eexists. now apply version_num_dotted.
Qed.
Example cdn_pattern_ex1 : cdn_pattern "cdn-1.10.0" = Some "1.10.0".
Proof. reflexivity. Qed.
Example cdn_pattern_ex2 : cdn_pattern "cdn-1.2.3.4" = None.
Proof. reflexivity. Qed.
Example cdn_pattern_ex3 : cdn_pattern "cdn_backup_temp" = None.
Proof. reflexivity. Qed.
Example version_num_ex1 : version_num "1.10.0" = Some 1100%Z.
Proof. reflexivity. Qed.
Example version_num_ex2 : version_num "v1.2.3" = None.
Proof. reflexivity. Qed.
Example py_int_ex : py_int " -1_0 " = Some (-10)%Z /\ py_int "1__0" = None /\ py_int "" = None.
Proof. repeat split; reflexivity. Qed.

(** C9 (counterexample). The pattern does not reject a component with a
    leading zero: the directory name cdn-01.2.3 matches, its identifier is
    01.2.3 and it is compared as 123. *)
Lemma cdn_pattern_accepts_leading_zero :
  cdn_pattern "cdn-01.2.3" <> None /\
  cdn_pattern "cdn-01.2.3" = Some "01.2.3" /\
  version_num "01.2.3" = Some 123%Z.
Proof. split; [discriminate | split; reflexivity]. Qed.

(** C9 (amended). The pattern of discovery matches exactly the names
    cdn-A.B.C in which A, B and C are non-empty runs of decimal digits (one
    final newline is tolerated by [$]), and captures A.B.C. A name with an
    extra segment therefore never matches, while components with leading
    zeros are accepted. *)
Theorem cdn_pattern_three_digit_runs (file version : string) :
  cdn_pattern file = Some version <->
  exists a b c,
    digit_run a /\ digit_run b /\ digit_run c /\
    version = dotted a b c /\
    (file = "cdn-" ++ version \/ file = "cdn-" ++ version ++ newline).
Proof.
  split.
  - apply cdn_pattern_sound.
  - intros (a & b & c & Ha & Hb & Hc & -> & [-> | ->]);
      now apply cdn_pattern_complete.
Qed.

Lemma cdn_pattern_three_digit_runs_witness :
  (exists a b c,
      digit_run a /\ digit_run b /\ digit_run c /\
      "1.2.3" = dotted a b c /\
      ("cdn-1.2.3" = "cdn-" ++ "1.2.3" \/
       "cdn-1.2.3" = "cdn-" ++ "1.2.3" ++ newline)) /\
  cdn_pattern "cdn-1.2.3.4" = None.
Proof.
  split.
  - apply (proj1 (cdn_pattern_three_digit_runs "cdn-1.2.3" "1.2.3")).
    reflexivity.
  - reflexivity.
Defined.

(** C6 (counterexample). The identifiers 1.10.0 and 11.0.0 are well formed
    and distinct, and both are mapped to 1100: neither is placed strictly
    above the other. *)
Lemma version_num_not_injective :
  dotted "1" "10" "0" <> dotted "11" "0" "0" /\
  cdn_pattern "cdn-1.10.0" = Some (dotted "1" "10" "0") /\
  cdn_pattern "cdn-11.0.0" = Some (dotted "11" "0" "0") /\
  version_num (dotted "1" "10" "0") = Some 1100%Z /\
  version_num (dotted "11" "0" "0") = Some 1100%Z.
Proof. split; [discriminate | repeat split]. Qed.

Lemma dval_three (a b c : string) :
  dval 0 (a ++ b ++ c)
  = (dval 0 a * 10 ^ (width b + width c) + dval 0 b * 10 ^ width c + dval 0 c)%Z.
Proof.
  rewrite !dval_app.
  rewrite (dval_shift c), (dval_shift b).
  assert (0 <= width b)%Z by (unfold width; lia).
  assert (0 <= width c)%Z by (unfold width; lia).
  rewrite Z.pow_add_r by assumption. ring.
Qed.

Lemma radix_split (q x1 x2 r1 r2 : Z) :
  (0 <= r1 < q)%Z -> (0 <= r2 < q)%Z ->
  (x1 * q + r1 = x2 * q + r2)%Z -> x1 = x2 /\ r1 = r2.
Proof.
  intros H1 H2 E. assert (x1 = x2) by nia. split; [assumption | nia].
Qed.

Lemma dotted_inj (a1 b1 c1 a2 b2 c2 : string) :
  a1 = a2 -> b1 = b2 -> c1 = c2 -> dotted a1 b1 c1 = dotted a2 b2 c2.
Proof. now intros -> -> ->. Qed.

(** C6 (amended). Two distinct well-formed identifiers whose major components
    have no leading zero and whose minor and patch components have pairwise
    the same number of digits are strictly ordered by their concatenated
    integers. *)
Theorem version_num_strict_same_widths (a1 b1 c1 a2 b2 c2 : string) :
  digit_run a1 -> digit_run b1 -> digit_run c1 ->
  digit_run a2 -> digit_run b2 -> digit_run c2 ->
  canonical a1 = true -> canonical a2 = true ->
  String.length b1 = String.length b2 ->
  String.length c1 = String.length c2 ->
  dotted a1 b1 c1 <> dotted a2 b2 c2 ->
  exists n1 n2,
    version_num (dotted a1 b1 c1) = Some n1 /\
    version_num (dotted a2 b2 c2) = Some n2 /\
    (n1 < n2 \/ n2 < n1)%Z.
Proof.
  intros Ha1 Hb1 Hc1 Ha2 Hb2 Hc2 Ca1 Ca2 Lb Lc Hne.
  exists (dval 0 (a1 ++ b1 ++ c1)), (dval 0 (a2 ++ b2 ++ c2)).
  split; [now apply version_num_dotted |].
  split; [now apply version_num_dotted |].
  destruct (Z.lt_trichotomy (dval 0 (a1 ++ b1 ++ c1)) (dval 0 (a2 ++ b2 ++ c2)))
    as [L | [E | L]]; [now left | | now right].
  exfalso. apply Hne.
  rewrite !dval_three in E.
  assert (Wb : width b1 = width b2) by (unfold width; now rewrite Lb).
  assert (Wc : width c1 = width c2) by (unfold width; now rewrite Lc).
  rewrite Wb, Wc in E.
  destruct Ha1 as [Da1 Na1], Hb1 as [Db1 Nb1], Hc1 as [Dc1 Nc1].
  destruct Ha2 as [Da2 Na2], Hb2 as [Db2 Nb2], Hc2 as [Dc2 Nc2].
  pose proof (dval_bound _ Da1) as Ba1. pose proof (dval_bound _ Da2) as Ba2.
  pose proof (dval_bound _ Db1) as Bb1. pose proof (dval_bound _ Db2) as Bb2.
  pose proof (dval_bound _ Dc1) as Bc1. pose proof (dval_bound _ Dc2) as Bc2.
  rewrite Wb in Bb1. rewrite Wc in Bc1.
  assert (0 <= width b2)%Z by (unfold width; lia).
  assert (0 <= width c2)%Z by (unfold width; lia).
  rewrite Z.pow_add_r in E by assumption.
  set (P := (10 ^ width b2)%Z) in *. set (Q := (10 ^ width c2)%Z) in *.
  destruct (radix_split Q (dval 0 a1 * P + dval 0 b1) (dval 0 a2 * P + dval 0 b2)
              (dval 0 c1) (dval 0 c2)) as [Eab Ec]; [lia | lia | lia |].
  destruct (radix_split P (dval 0 a1) (dval 0 a2) (dval 0 b1) (dval 0 b2))
    as [Ea Eb]; [lia | lia | lia |].
  apply dotted_inj.
  - now apply dval_inj_canonical.
  - now apply dval_inj_same_width.
  - now apply dval_inj_same_width.
Qed.

Lemma version_num_strict_same_widths_witness :
  exists n1 n2,
    version_num (dotted "1" "9" "0") = Some n1 /\
    version_num (dotted "10" "0" "0") = Some n2 /\
    (n1 < n2 \/ n2 < n1)%Z.
Proof.
  apply (version_num_strict_same_widths "1" "9" "0" "10" "0" "0");
    try (split; [reflexivity | discriminate]);
    try reflexivity; discriminate.
Defined.

(** ** Dictionaries *)

Lemma dict_get_set (k k' v : string) (d : dict) :
  dict_get k (dict_set k' v d) = if String.eqb k' k then Some v else dict_get k d.
Proof.
  induction d as [|[k0 v0] r IH]; simpl.
  - reflexivity.
  - destruct (String.eqb_spec k0 k') as [->|Hne]; simpl.
    + destruct (String.eqb k' k); reflexivity.
    + rewrite IH. destruct (String.eqb_spec k' k) as [->|Hne'].
      * apply String.eqb_neq in Hne. now rewrite Hne.
      * reflexivity.
Qed.

Lemma dict_get_absent (k : string) (d : dict) :
  ~ In k (map fst d) -> dict_get k d = None.
Proof.
  induction d as [|[k0 v0] r IH]; simpl; intros H; [reflexivity |].
  destruct (String.eqb_spec k0 k) as [->|Hne]; [tauto |].
  apply IH. tauto.
Qed.

Lemma dict_merge_get (a b : dict) (k : string) :
  dict_wf b ->
  dict_get k (dict_merge a b)
  = match dict_get k b with Some v => Some v | None => dict_get k a end.
Proof.
  unfold dict_wf, dict_merge. revert a.
  induction b as [|[k1 v1] b IH]; intros a Hwf; simpl; [reflexivity |].
  inversion Hwf as [|? ? Hnotin Hwf']; subst.
  rewrite (IH _ Hwf'), dict_get_set.
  destruct (String.eqb_spec k1 k) as [->|Hne]; [| reflexivity].
  now rewrite (dict_get_absent _ _ Hnotin).
Qed.

(** ** Filesystem *)

Lemma path_eqb_spec (p q : path) : reflect (p = q) (path_eqb p q).
Proof.
  revert q. induction p as [|a p IH]; intros [|b q]; simpl;
    try (constructor; congruence).
  destruct (String.eqb_spec a b) as [->|Hne]; simpl.
  - destruct (IH q) as [->|Hne]; constructor; congruence.
  - constructor; congruence.
Qed.

Lemma path_eqb_refl (p : path) : path_eqb p p = true.
Proof. now destruct (path_eqb_spec p p). Qed.

Lemma is_prefix_refl (p : path) : is_prefix p p = true.
Proof. induction p as [|a p IH]; simpl; [reflexivity |]. now rewrite String.eqb_refl. Qed.

Lemma is_prefix_app (p r : path) : is_prefix p (p ++ r)%list = true.
Proof. induction p as [|a p IH]; simpl; [reflexivity |]. now rewrite String.eqb_refl. Qed.

Lemma join_inj (p q : path) (a b : string) : join p a = join q b -> p = q /\ a = b.
Proof. unfold join. apply app_inj_tail. Qed.

Lemma parent_join (p : path) (n : string) : parent (join p n) = p.
Proof. unfold parent, join. apply removelast_last. Qed.

Lemma fs_lookup_delete (f : filesystem) (p q : path) :
  fs_lookup (fs_delete p f) q = if path_eqb p q then None else fs_lookup f q.
Proof.
  unfold fs_delete. induction f as [|[r n] f IH]; simpl.
  - now destruct (path_eqb p q).
  - destruct (path_eqb_spec r p) as [->|Hrp]; simpl.
    + rewrite IH. destruct (path_eqb p q); reflexivity.
    + rewrite IH. destruct (path_eqb_spec r q) as [->|Hrq]; [| reflexivity].
      destruct (path_eqb_spec p q) as [->|]; [congruence | reflexivity].
Qed.

Lemma fs_lookup_set (f : filesystem) (p q : path) (n : node) :
  fs_lookup (fs_set p n f) q = if path_eqb p q then Some n else fs_lookup f q.
Proof.
  unfold fs_set. simpl. rewrite fs_lookup_delete.
  destruct (path_eqb p q); reflexivity.
Qed.

Lemma fs_lookup_remove_tree (f : filesystem) (p q : path) :
  fs_lookup (fs_remove_tree p f) q = if is_prefix p q then None else fs_lookup f q.
Proof.
  unfold fs_remove_tree. induction f as [|[r n] f IH]; simpl.
  - now destruct (is_prefix p q).
  - destruct (is_prefix p r) eqn:Hpr; simpl.
    + rewrite IH. destruct (path_eqb_spec r q) as [->|]; [| reflexivity].
      now rewrite Hpr.
    + rewrite IH. destruct (path_eqb_spec r q) as [->|]; [| reflexivity].
      now rewrite Hpr.
Qed.

Lemma filter_all {A} (g : A -> bool) (l : list A) :
  (forall x, In x l -> g x = true) -> filter g l = l.
Proof.
  induction l as [|x l IH]; simpl; intros H; [reflexivity |].
  rewrite (H x) by auto. f_equal. apply IH. auto.
Qed.

(** ** The monad *)

Ltac unfold_m :=
  unfold bind, ret, raise, try_except, try_bare, get_fs, put_fs, get_process,
    put_process, get_clock, emit in *.

(** ** Restoring the configuration *)

Lemma write_file_ok (env : environment) (p : path) (data : string) (w : world) :
  write_fails env p = false ->
  fs_isdir (disk w) p = false ->
  fs_isdir (disk w) (parent p) = true ->
  write_file env p data w
  = Ok tt (with_fs (fs_set p (File data) (disk w)) (with_event (EvWrite p) w)).
Proof.
  intros Hw Hd Hp. unfold write_file. unfold_m. simpl.
  now rewrite Hw, Hd, Hp.
Qed.

(** C3. Restoring a snapshot into a target version writes the configuration
    file of the target as the merge of the configuration it held with the
    snapshot, and in that merge a key of the snapshot has the snapshot's
    value, any other key the value the target had. With an empty snapshot the
    target is left as it is. *)
Theorem restore_env_file_merges (env : environment) (cdn : path)
    (snapshot : dict) (w : world) :
  dict_wf snapshot ->
  write_fails env (join cdn ".env") = false ->
  fs_isdir (disk w) cdn = true ->
  fs_isdir (disk w) (join cdn ".env") = false ->
  let existing := stored_config env (disk w) (join cdn ".env") in
  let merged := dict_merge existing snapshot in
  (forall k,
      dict_get k merged
      = match dict_get k snapshot with
        | Some v => Some v
        | None => dict_get k existing
        end) /\
  exists w',
    restore_env_file env cdn snapshot w = Ok tt w' /\
    (snapshot = [] -> w' = w) /\
    (snapshot <> [] ->
     fs_lookup (disk w') (join cdn ".env")
     = Some (File (render_env (isoformat_now env (clock w)) merged))).
Proof.
  intros Hwf Hw Hcdn Henv existing merged. split.
  - intros k. now apply dict_merge_get.
  - destruct snapshot as [|kv rest] eqn:Es.
    + exists w. repeat split; congruence.
    + rewrite <- Es in *. unfold restore_env_file. rewrite Es, <- Es.
      unfold bind at 1. unfold get_fs at 1. unfold bind at 1. unfold get_clock at 1.
      unfold try_except.
      rewrite write_file_ok by (rewrite ?parent_join; assumption).
      eexists. split; [reflexivity |]. split; [congruence |].
      intros _. cbn [disk with_fs]. rewrite fs_lookup_set, path_eqb_refl.
      unfold merged, existing, stored_config. rewrite Es. reflexivity.
Qed.

Lemma restore_env_file_merges_witness :
  (forall k,
      dict_get k (dict_merge [("a", "1"); ("b", "2")] [("b", "3"); ("c", "4")])
      = match dict_get k [("b", "3"); ("c", "4")] with
        | Some v => Some v
        | None => dict_get k [("a", "1"); ("b", "2")]
        end) /\
  dict_merge [("a", "1"); ("b", "2")] [("b", "3"); ("c", "4")]
  = [("a", "1"); ("b", "3"); ("c", "4")] /\
  exists w',
    restore_env_file calm ["srv"; "cdn-1.3.0"] [("b", "3"); ("c", "4")] world_merge
    = Ok tt w' /\
    stored_config calm (disk w') ["srv"; "cdn-1.3.0"; ".env"]
    = [("a", "1"); ("b", "3"); ("c", "4")].
Proof.
  assert (Hwf : dict_wf [("b", "3"); ("c", "4")]).
  { unfold dict_wf. simpl. repeat constructor; simpl; intuition discriminate. }
  destruct (restore_env_file_merges calm ["srv"; "cdn-1.3.0"]
              [("b", "3"); ("c", "4")] world_merge Hwf eq_refl eq_refl eq_refl)
    as [Hget _].
  split; [exact Hget |]. split; [reflexivity |].
  eexists. split; [vm_compute; reflexivity | vm_compute; reflexivity].
Defined.

(** ** Failures that escape *)

(** C4 (the code at the failing input). The holding area keeps a data file
    and copying it into the new version directory fails: restore raises to
    its caller, the deletion of the holding area is never attempted and the
    holding area stays on disk. *)
Theorem restore_copy_failure_escapes :
  exists w',
    restore_persistent_files (with_copy_failure calm) ["srv"; "cdn-1.1.0"] []
      ["srv"; "cdn_backup_temp"] world_restore
    = Raise OSError w' /\
    fs_exists (disk w') ["srv"; "cdn_backup_temp"] = true /\
    log w' = [EvCopy ["srv"; "cdn_backup_temp"; "database.db"]
                     ["srv"; "cdn-1.1.0"; "database.db"]].
Proof. eexists. split; [vm_compute; reflexivity | split; reflexivity]. Qed.

(** C2 (the code at the failing input). The release source answers with the
    tag v1.2.3: the conversion of the tag raises inside check_and_update,
    nothing catches it and the supervisor ends with that exception, whatever
    the check interval and however long the loop would have run. A failing
    copy of the data file during the backup ends the supervisor in the same
    way. *)
Theorem run_with_updates_aborts_on_malformed_tag (check_interval fuel : nat) :
  (exists w',
      run_with_updates loader (with_release (Some (release_of "v1.2.3")) calm)
        check_interval fuel world_installed
      = Some (Raise ValueError w')) /\
  (exists w',
      run_with_updates loader (with_copy_failure calm)
        check_interval fuel world_installed
      = Some (Raise OSError w')).
Proof.
  split; eexists; unfold run_with_updates.
  - replace (check_and_update loader
               (with_release (Some (release_of "v1.2.3")) calm) world_installed)
      with (Raise (A := unit) ValueError
              (outcome_world
                 (check_and_update loader
                    (with_release (Some (release_of "v1.2.3")) calm)
                    world_installed)))
      by (vm_compute; reflexivity).
    reflexivity.
  - replace (check_and_update loader (with_copy_failure calm) world_installed)
      with (Raise (A := unit) OSError
              (outcome_world
                 (check_and_update loader (with_copy_failure calm)
                    world_installed)))
      by (vm_compute; reflexivity).
    reflexivity.
Qed.

(** C7 (the code at the failing input). The loader holds the handle of a
    child that has exited, version 1.0.0 is installed and the release query
    fails: check_and_update returns without launching anything, although no
    process is running. With the same state and an up-to-date release the
    sibling branch does launch. *)
Theorem fetch_failure_ignores_dead_child :
  (exists w',
      check_and_update loader calm world_dead_child = Ok tt w' /\
      process w' = Some {| pid := 7; exited := true |} /\
      log w' = [EvFetch (api_url loader);
                EvMakedirs ["srv"; "cdn_backup_temp"];
                EvCopy ["srv"; "cdn-1.0.0"; "database.db"]
                       ["srv"; "cdn_backup_temp"]]) /\
  (exists w',
      check_and_update loader (with_release (Some (release_of "1.0.0")) calm)
        world_dead_child = Ok tt w' /\
      process w' = Some {| pid := 4242; exited := false |}).
Proof.
  split; eexists; (split; [vm_compute; reflexivity | repeat split]).
Qed.

(** C5 (counterexample). Version 1.0.0 is installed and the release query
    fails: the cycle completes and the holding area it created is still in
    the working root. The same holds when the installed version is up to
    date. *)
Lemma holding_area_left_after_fetch_failure :
  (exists w',
      check_and_update loader calm world_installed = Ok tt w' /\
      fs_exists (disk w') ["srv"; "cdn_backup_temp"] = true) /\
  (exists w',
      check_and_update loader (with_release (Some (release_of "1.0.0")) calm)
        world_installed = Ok tt w' /\
      fs_exists (disk w') ["srv"; "cdn_backup_temp"] = true).
Proof.
  split; eexists; (split; [vm_compute; reflexivity | reflexivity]).
Qed.

(** C8 (counterexample). There is no holding area and the snapshot is not
    empty: restore does not raise, but it writes the configuration file of the
    target, which did not exist. *)
Lemma restore_rewrites_config_when_no_holding_area :
  exists w',
    restore_persistent_files calm ["srv"; "cdn-1.1.0"] [("a", "1")]
      ["srv"; "cdn_backup_temp"] world_no_holding
    = Ok tt w' /\
    fs_exists (disk world_no_holding) ["srv"; "cdn-1.1.0"; ".env"] = false /\
    fs_exists (disk w') ["srv"; "cdn-1.1.0"; ".env"] = true /\
    disk w' <> disk world_no_holding.
Proof.
  eexists. split; [vm_compute; reflexivity |].
  split; [reflexivity |]. split; [reflexivity |]. discriminate.
Qed.

(** ** Download and extraction *)

Ltac in_list := solve [simpl; repeat (first [left; reflexivity | right])].

Ltac log_step :=
  cbn [log disk process clock with_event with_fs with_process with_clock
       outcome_world];
  rewrite <- ?app_assoc; cbn [app].

(** C10. When the stream of the download breaks after the temporary archive
    was created, download_and_extract returns nothing and the partial file is
    still there: the call made the download and wrote the file, and did
    nothing else. In every call, whatever its outcome, the temporary file is
    removed only after an extraction was attempted. *)
Theorem download_failure_leaves_temp_file (self : CDNLoader) (env : environment)
    (rel : release) (version : string) (zip_asset : asset) (partial : string)
    (w : world) :
  let temp_zip := join (current_path self) ("cdn-" ++ version ++ "-temp.zip") in
  let extract_dir := join (current_path self) ("cdn-" ++ version) in
  find (fun a => endswith ".zip" (name a)) (assets rel) = Some zip_asset ->
  download env (browser_download_url zip_asset) = DlStreamFails partial ->
  write_fails env temp_zip = false ->
  fs_isdir (disk w) temp_zip = false ->
  fs_isdir (disk w) (current_path self) = true ->
  (exists w',
      download_and_extract self env rel version w = Ok None w' /\
      fs_lookup (disk w') temp_zip = Some (File partial) /\
      log w' = (log w ++ [EvDownload (browser_download_url zip_asset) temp_zip;
                          EvWrite temp_zip])%list) /\
  (forall w0, exists l,
      log (outcome_world (download_and_extract self env rel version w0))
      = (log w0 ++ l)%list /\
      (In (EvRemove temp_zip) l -> In (EvExtract temp_zip extract_dir) l)).
Proof.
  intros temp_zip extract_dir Hfind Hdl Hwf Hfile Hroot. split.
  - unfold download_and_extract. rewrite Hfind. fold temp_zip.
    unfold download_progress. rewrite Hdl.
    unfold bind at 1. unfold bind at 1. unfold emit at 1.
    unfold try_except, bind at 1.
    rewrite write_file_ok;
      [| assumption | assumption
       | unfold temp_zip; rewrite parent_join; assumption].
    unfold ret at 1. cbn [negb]. unfold ret.
    eexists. split; [reflexivity |]. split.
    + cbn [disk with_fs]. now rewrite fs_lookup_set, path_eqb_refl.
    + log_step. reflexivity.
  - intros w0. clear Hdl Hwf Hfile Hroot.
    unfold download_and_extract. rewrite Hfind. fold temp_zip extract_dir.
    unfold download_progress, zip_extractall, os_remove, write_file.
    unfold_m.
    destruct (download env (browser_download_url zip_asset));
      repeat match goal with
        | |- context [if ?b then _ else _] => destruct b
        | |- context [match fs_lookup ?f ?p with _ => _ end] =>
            destruct (fs_lookup f p) as [[|?]|]
        | |- context [match unzip ?e ?d with _ => _ end] => destruct (unzip e d)
        | _ => progress cbn [negb is_exception disk with_fs with_event]
        end;
      eexists; (split; [log_step; reflexivity |]);
      intros Hin; first [ in_list | exfalso; simpl in Hin; intuition discriminate ].
Qed.

Lemma download_failure_leaves_temp_file_witness :
  (exists w',
      download_and_extract loader env_broken_stream (release_of "1.1.0") "1.1.0"
        world_installed = Ok None w' /\
      fs_lookup (disk w') ["srv"; "cdn-1.1.0-temp.zip"]
      = Some (File "PK-partial") /\
      log w' = [EvDownload "https://example.org/siteadmin.zip"
                           ["srv"; "cdn-1.1.0-temp.zip"];
                EvWrite ["srv"; "cdn-1.1.0-temp.zip"]]).
Proof.
  exact (proj1 (download_failure_leaves_temp_file loader env_broken_stream
                  (release_of "1.1.0") "1.1.0" bundle_zip "PK-partial"
                  world_installed eq_refl eq_refl eq_refl eq_refl eq_refl)).
Defined.

(** ** Restore without a holding area *)

Lemma restore_env_file_frame (env : environment) (cdn : path) (snapshot : dict)
    (w : world) :
  exists w',
    restore_env_file env cdn snapshot w = Ok tt w' /\
    process w' = process w /\ clock w' = clock w /\
    (disk w' = disk w \/
     exists data, fs_isdir (disk w) cdn = true /\
                  disk w' = fs_set (join cdn ".env") (File data) (disk w)) /\
    (log w' = log w \/ log w' = (log w ++ [EvWrite (join cdn ".env")])%list) /\
    (snapshot = [] -> w' = w).
Proof.
  unfold restore_env_file. destruct snapshot as [|kv rest].
  - exists w. unfold ret. repeat split; auto.
  - unfold write_file. unfold_m. cbn [disk with_event].
    destruct (write_fails env (join cdn ".env")
              || fs_isdir (disk w) (join cdn ".env")
              || negb (fs_isdir (disk w) (parent (join cdn ".env")))) eqn:E.
    + cbn [is_exception]. eexists. split; [reflexivity |].
      split; [reflexivity |]. split; [reflexivity |].
      split; [left; reflexivity |]. split; [right; reflexivity | discriminate].
    + eexists. split; [reflexivity |].
      apply orb_false_iff in E as [_ E]. apply negb_false_iff in E.
      rewrite parent_join in E.
      split; [reflexivity |]. split; [reflexivity |].
      split; [right; eexists; split; [exact E | reflexivity] |].
      split; [right; reflexivity | discriminate].
Qed.

Lemma fs_lookup_in (f : filesystem) (q : path) (n : node) :
  fs_lookup f q = Some n -> In (q, n) f.
Proof.
  induction f as [|[r m] f IH]; simpl; [discriminate |].
  destruct (path_eqb_spec r q) as [->|]; [| auto].
  intros [= ->]. now left.
Qed.

Lemma absent_tree_check (f : filesystem) (p : path) :
  forallb (fun e => negb (is_prefix p (fst e))) f = true -> absent_tree f p.
Proof.
  intros H q Hq. destruct (fs_lookup f q) as [n|] eqn:E; [| reflexivity].
  apply fs_lookup_in in E. rewrite forallb_forall in H.
  specialize (H _ E). simpl in H. rewrite Hq in H. discriminate.
Qed.

Lemma join_absent (f : filesystem) (p : path) (n : string) :
  absent_tree f p -> fs_lookup f (join p n) = None.
Proof. intros H. apply H. apply is_prefix_app. Qed.

(** C8 (amended). When nothing exists at the holding area, restore does not
    raise, copies nothing and changes neither the process handle nor any path
    other than the configuration file of the target; with an empty snapshot
    it leaves the whole disk as it is. With a non-empty snapshot the
    configuration file of the target is still rewritten. *)
Theorem restore_without_holding_area (env : environment) (cdn : path)
    (snapshot : dict) (backup_dir : path) (w : world) :
  absent_tree (disk w) backup_dir ->
  exists w',
    restore_persistent_files env cdn snapshot backup_dir w = Ok tt w' /\
    process w' = process w /\
    (forall q, q <> join cdn ".env" ->
               fs_lookup (disk w') q = fs_lookup (disk w) q) /\
    (snapshot = [] -> disk w' = disk w) /\
    (exists l, log w' = (log w ++ l)%list /\
               forall e, In e l ->
                         e = EvWrite (join cdn ".env") \/ e = EvRmtree backup_dir).
Proof.
  intros Habs.
  destruct (restore_env_file_frame env cdn snapshot w)
    as (w1 & Hrun & Hproc & _ & Hdisk & Hlog & Hempty).
  assert (Hrun' : (match snapshot with
                   | [] => ret tt
                   | _ => restore_env_file env cdn snapshot
                   end) w = Ok tt w1).
  { destruct snapshot; [| exact Hrun]. rewrite (Hempty eq_refl). reflexivity. }
  assert (Hframe : forall q, q <> join cdn ".env" ->
                             fs_lookup (disk w1) q = fs_lookup (disk w) q).
  { intros q Hq. destruct Hdisk as [-> | (data & _ & ->)]; [reflexivity |].
    rewrite fs_lookup_set.
    destruct (path_eqb_spec (join cdn ".env") q); [congruence | reflexivity]. }
  assert (Hchild : forall n, n <> ".env" ->
                             fs_exists (disk w1) (join backup_dir n) = false).
  { intros n Hn. unfold fs_exists. rewrite Hframe.
    - now rewrite (join_absent _ _ _ Habs).
    - intros E. apply join_inj in E as [_ E]. congruence. }
  assert (Hnodir : fs_isdir (disk w1) backup_dir = false).
  { unfold fs_isdir. destruct Hdisk as [-> | (data & _ & ->)].
    - rewrite (Habs backup_dir (is_prefix_refl _)). reflexivity.
    - rewrite fs_lookup_set.
      destruct (path_eqb (join cdn ".env") backup_dir); [reflexivity |].
      rewrite (Habs backup_dir (is_prefix_refl _)). reflexivity. }
  unfold restore_persistent_files.
  unfold bind at 1. rewrite Hrun'.
  unfold bind at 1. unfold get_fs at 1.
  rewrite (Hchild "database.db") by discriminate.
  unfold bind at 1. unfold ret at 1.
  unfold bind at 1. unfold get_fs at 1.
  rewrite (Hchild "uploads") by discriminate.
  unfold bind at 1. unfold ret at 1.
  unfold shutil_rmtree. unfold_m. cbn [disk with_event].
  rewrite Hnodir, orb_true_r.
  eexists. split; [reflexivity |]. cbn [process disk log with_event].
  split; [assumption |]. split; [assumption |]. split.
  - intros ->. now rewrite (Hempty eq_refl).
  - destruct Hlog as [-> | ->].
    + exists [EvRmtree backup_dir]. split; [reflexivity |].
      intros e [<- | []]. now right.
    + exists [EvWrite (join cdn ".env"); EvRmtree backup_dir].
      split; [now rewrite <- app_assoc |].
      intros e [<- | [<- | []]]; auto.
Qed.

Lemma restore_without_holding_area_witness :
  exists w',
    restore_persistent_files calm ["srv"; "cdn-1.1.0"] []
      ["srv"; "cdn_backup_temp"] world_no_holding = Ok tt w' /\
    process w' = process world_no_holding /\
    (forall q, q <> join ["srv"; "cdn-1.1.0"] ".env" ->
               fs_lookup (disk w') q = fs_lookup (disk world_no_holding) q) /\
    ([] = @nil (string * string) -> disk w' = disk world_no_holding) /\
    (exists l, log w' = (log world_no_holding ++ l)%list /\
               forall e, In e l ->
                         e = EvWrite (join ["srv"; "cdn-1.1.0"] ".env") \/
                         e = EvRmtree ["srv"; "cdn_backup_temp"]).
Proof.
  apply (restore_without_holding_area calm ["srv"; "cdn-1.1.0"] []
           ["srv"; "cdn_backup_temp"] world_no_holding).
  apply absent_tree_check. reflexivity.
Defined.

(** ** Discovery *)

Lemma insert_desc_perm (x : cdn_dir) (l : list cdn_dir) :
  Permutation (insert_desc x l) (x :: l).
Proof.
  induction l as [|y r IH]; simpl; [reflexivity |].
  destruct (cdn_version_num y <=? cdn_version_num x)%Z; [reflexivity |].
  rewrite IH. apply perm_swap.
Qed.

Lemma sort_desc_perm (l : list cdn_dir) : Permutation (sort_desc l) l.
Proof.
  induction l as [|x l IH]; simpl; [reflexivity |].
  rewrite insert_desc_perm. now constructor.
Qed.

Lemma insert_desc_sorted (x : cdn_dir) (l : list cdn_dir) :
  StronglySorted below_key l -> StronglySorted below_key (insert_desc x l).
Proof.
  induction l as [|y r IH]; intros Hs; simpl.
  - repeat constructor.
  - inversion Hs as [|? ? Hr Hall]; subst.
    destruct (Z.leb_spec (cdn_version_num y) (cdn_version_num x)) as [Hle|Hgt].
    + constructor; [assumption |]. constructor; [exact Hle |].
      eapply Forall_impl; [| exact Hall]. unfold below_key. intros; lia.
    + constructor; [now apply IH |].
      eapply Permutation_Forall; [symmetry; apply insert_desc_perm |].
      constructor; [unfold below_key; lia | assumption].
Qed.

Lemma sort_desc_sorted (l : list cdn_dir) : StronglySorted below_key (sort_desc l).
Proof.
  induction l as [|x l IH]; simpl; [constructor | now apply insert_desc_sorted].
Qed.

Lemma sort_desc_head (l olds : list cdn_dir) (newest d : cdn_dir) :
  sort_desc l = newest :: olds -> In d l ->
  (cdn_version_num d <= cdn_version_num newest)%Z.
Proof.
  intros Hs Hin.
  pose proof (sort_desc_sorted l) as S. rewrite Hs in S.
  inversion S as [|? ? _ Hall]; subst.
  apply (Permutation_in _ (Permutation_sym (sort_desc_perm l))) in Hin.
  rewrite Hs in Hin. destruct Hin as [<- | Hin]; [lia |].
  rewrite Forall_forall in Hall. now apply Hall.
Qed.

Lemma candidate_some (self : CDNLoader) (f : filesystem) (file : string)
    (d : cdn_dir) :
  candidate self f file = Some d ->
  cdn_pattern file = Some (cdn_version d) /\
  fs_isdir f (join (current_path self) file) = true /\
  version_num (cdn_version d) = Some (cdn_version_num d) /\
  cdn_path d = join (current_path self) file.
Proof.
  unfold candidate. destruct (cdn_pattern file) as [v|]; [| discriminate].
  destruct (fs_isdir f _); [| discriminate].
  destruct (version_num v) as [n|] eqn:E; [| discriminate].
  intros [= <-]. simpl. auto.
Qed.

Lemma candidate_of_match (self : CDNLoader) (f : filesystem) (file : string) :
  cdn_pattern file <> None ->
  fs_isdir f (join (current_path self) file) = true ->
  exists d, candidate self f file = Some d.
Proof.
  intros Hp Hd. unfold candidate.
  destruct (cdn_pattern file) as [v|] eqn:E; [| congruence].
  rewrite Hd. destruct (cdn_pattern_version_num _ _ E) as [n ->]. eauto.
Qed.

Lemma in_candidates (self : CDNLoader) (f : filesystem) (files : list string)
    (d : cdn_dir) :
  In d (candidates self f files) <->
  exists file, In file files /\ candidate self f file = Some d.
Proof.
  unfold candidates. rewrite in_flat_map. split.
  - intros (file & Hin & Hd). exists file. split; [assumption |].
    destruct (candidate self f file) as [d'|]; simpl in Hd; [| tauto].
    destruct Hd as [-> | []]. reflexivity.
  - intros (file & Hin & Hc). exists file. split; [assumption |].
    rewrite Hc. now left.
Qed.

Lemma candidates_nodup (self : CDNLoader) (f : filesystem) (files : list string) :
  NoDup files -> NoDup (map cdn_path (candidates self f files)).
Proof.
  induction files as [|file files IH]; intros Hnd; simpl; [constructor |].
  inversion Hnd as [|? ? Hnotin Hnd']; subst.
  destruct (candidate self f file) as [d|] eqn:E; simpl; [| now apply IH].
  constructor; [| now apply IH].
  intros Hin. apply in_map_iff in Hin as (d' & Hp & Hin).
  apply in_candidates in Hin as (file' & Hin' & E').
  apply candidate_some in E as (_ & _ & _ & P).
  apply candidate_some in E' as (_ & _ & _ & P').
  rewrite P, P' in Hp. apply join_inj in Hp as [_ ->]. contradiction.
Qed.

Lemma scan_files_ok (self : CDNLoader) (files : list string)
    (acc : list cdn_dir) (w : world) :
  scan_files self files acc w
  = Ok (acc ++ candidates self (disk w) files)%list w.
Proof.
  revert acc. induction files as [|file files IH]; intros acc; simpl.
  - unfold ret. now rewrite app_nil_r.
  - unfold bind, get_fs. unfold candidate.
    destruct (cdn_pattern file) as [v|] eqn:E; [| apply IH].
    destruct (fs_isdir (disk w) (join (current_path self) file)); [| apply IH].
    destruct (cdn_pattern_version_num _ _ E) as [n ->].
    rewrite IH, <- app_assoc. reflexivity.
Qed.

Lemma shutil_rmtree_log (env : environment) (ignore : bool) (p : path) (w : world) :
  log (outcome_world (shutil_rmtree env ignore p w))
  = (log w ++ [EvRmtree p])%list.
Proof.
  unfold shutil_rmtree. unfold_m. cbn [disk with_event].
  destruct (rmtree_fails env p || negb (fs_isdir (disk w) p));
    [destruct ignore |]; reflexivity.
Qed.

Lemma prune_ok (env : environment) (olds : list cdn_dir) (w : world) :
  exists w',
    prune env olds w = Ok tt w' /\
    process w' = process w /\ clock w' = clock w /\
    log w' = (log w ++ map EvRmtree (map cdn_path olds))%list.
Proof.
  revert w. induction olds as [|d olds IH]; intros w; simpl.
  - exists w. unfold ret. rewrite app_nil_r. auto.
  - pose proof (shutil_rmtree_log env false (cdn_path d) w) as Hlog.
    unfold bind at 1. unfold try_except.
    assert (Hpc : process (outcome_world (shutil_rmtree env false (cdn_path d) w))
                  = process w /\
                  clock (outcome_world (shutil_rmtree env false (cdn_path d) w))
                  = clock w).
    { unfold shutil_rmtree. unfold_m. cbn [disk with_event].
      destruct (rmtree_fails env (cdn_path d)
                || negb (fs_isdir (disk w) (cdn_path d))); split; reflexivity. }
    assert (Hexn : forall e w1,
               shutil_rmtree env false (cdn_path d) w = Raise e w1 ->
               is_exception e = true).
    { unfold shutil_rmtree. unfold_m. cbn [disk with_event].
      destruct (rmtree_fails env (cdn_path d)
                || negb (fs_isdir (disk w) (cdn_path d)));
        intros e w1 [=]; subst; reflexivity. }
    destruct (shutil_rmtree env false (cdn_path d) w) as [[] w1 | e w1] eqn:E;
      simpl in Hlog, Hpc; [| rewrite (Hexn e w1 eq_refl); unfold ret];
      destruct (IH w1) as (w' & Hrun & Hp & Hc & Hl);
      exists w'; (split; [exact Hrun |]);
      destruct Hpc as [Hp1 Hc1]; rewrite Hp, Hc, Hl, Hlog, Hp1, Hc1, <- app_assoc;
      auto.
Qed.

Lemma fs_isdir_exists (f : filesystem) (p : path) :
  fs_isdir f p = true -> fs_exists f p = true.
Proof.
  unfold fs_isdir, fs_exists. destruct (fs_lookup f p) as [[|]|]; congruence.
Qed.

(** What a run of get_newest_cdn does, by the state of the working root. *)
Lemma get_newest_cdn_run (self : CDNLoader) (env : environment) (w : world) :
  let root := current_path self in
  let cands := candidates self (disk w) (fs_listdir (disk w) root) in
  if negb (fs_exists (disk w) root) then get_newest_cdn self env w = Ok None w
  else if negb (fs_isdir (disk w) root)
  then get_newest_cdn self env w = Raise OSError w
  else match sort_desc cands with
       | [] => cands = [] /\ get_newest_cdn self env w = Ok None w
       | newest :: olds =>
           exists w',
             get_newest_cdn self env w = Ok (Some newest) w' /\
             prune env olds w = Ok tt w' /\
             process w' = process w /\ clock w' = clock w /\
             log w' = (log w ++ map EvRmtree (map cdn_path olds))%list
       end.
Proof.
  intros root cands.
  assert (Hhead : get_newest_cdn self env w
            = if negb (fs_exists (disk w) root) then Ok None w
              else if negb (fs_isdir (disk w) root) then Raise OSError w
              else match cands with
                   | [] => Ok None w
                   | _ => match sort_desc cands with
                          | [] => Raise IndexError w
                          | newest :: olds =>
                              (prune env olds ;; ret (Some newest)) w
                          end
                   end).
  { unfold get_newest_cdn. unfold bind at 1. unfold get_fs at 1. fold root.
    destruct (negb (fs_exists (disk w) root)); [reflexivity |].
    destruct (negb (fs_isdir (disk w) root)); [reflexivity |].
    unfold bind at 1. rewrite scan_files_ok. cbn [app]. fold cands.
    destruct cands as [|c cs]; [reflexivity |].
    destruct (sort_desc (c :: cs)); reflexivity. }
  rewrite Hhead. clear Hhead.
  destruct (negb (fs_exists (disk w) root)); [reflexivity |].
  destruct (negb (fs_isdir (disk w) root)); [reflexivity |].
  pose proof (sort_desc_perm cands) as P.
  destruct (sort_desc cands) as [|newest olds] eqn:Es.
  - apply Permutation_nil in P. rewrite P. auto.
  - destruct cands as [|c cs] eqn:Ec.
    + symmetry in P. apply Permutation_nil in P. discriminate.
    + destruct (prune_ok env olds w) as (w' & Hrun & Hp & Hc & Hl).
      exists w'. unfold bind, ret. rewrite Hrun. auto.
Qed.

(** C1. When the working root is a directory, discovery returns nothing
    exactly when no immediate child directory has a name matching the version
    pattern, and then it changes nothing. Otherwise it returns a matching
    directory whose concatenated integer is at least that of every matching
    directory, and the deletions it attempts are, once each, exactly the other
    matching directories. *)
Theorem get_newest_cdn_selects_greatest (self : CDNLoader) (env : environment)
    (w : world) :
  let root := current_path self in
  fs_isdir (disk w) root = true ->
  exists r w',
    get_newest_cdn self env w = Ok r w' /\
    match r with
    | None => (forall file, ~ matching self (disk w) file) /\ w' = w
    | Some newest =>
        (exists file,
            matching self (disk w) file /\
            cdn_path newest = join root file /\
            cdn_pattern file = Some (cdn_version newest) /\
            version_num (cdn_version newest) = Some (cdn_version_num newest)) /\
        (forall file v n,
            matching self (disk w) file ->
            cdn_pattern file = Some v -> version_num v = Some n ->
            (n <= cdn_version_num newest)%Z) /\
        (exists attempts,
            log w' = (log w ++ map EvRmtree attempts)%list /\
            NoDup attempts /\
            forall p, In p attempts <->
                      p <> cdn_path newest /\
                      exists file, matching self (disk w) file /\ p = join root file)
    end.
Proof.
  intros root Hroot.
  pose proof (get_newest_cdn_run self env w) as Hrun. cbv zeta in Hrun.
  fold root in Hrun. rewrite (fs_isdir_exists _ _ Hroot), Hroot in Hrun.
  cbn [negb] in Hrun.
  set (files := fs_listdir (disk w) root) in *.
  set (cands := candidates self (disk w) files) in *.
  assert (Hmatch : forall file, matching self (disk w) file ->
                     exists d, In d cands /\ candidate self (disk w) file = Some d).
  { intros file (Hin & Hp & Hd).
    destruct (candidate_of_match self (disk w) file Hp Hd) as [d Hc].
    exists d. split; [| assumption]. apply in_candidates. eauto. }
  assert (Hcand : forall d, In d cands ->
                    exists file, matching self (disk w) file /\
                                 candidate self (disk w) file = Some d).
  { intros d Hin. apply in_candidates in Hin as (file & Hin & Hc).
    exists file. split; [| assumption].
    destruct (candidate_some _ _ _ _ Hc) as (Hp & Hd & _).
    repeat split; [assumption | congruence | assumption]. }
  pose proof (sort_desc_perm cands) as P.
  destruct (sort_desc cands) as [|newest olds] eqn:Es.
  - destruct Hrun as [Hnil Hrun]. exists None, w. split; [assumption |].
    split; [| reflexivity]. intros file Hm.
    destruct (Hmatch file Hm) as (d & Hin & _). rewrite Hnil in Hin. contradiction.
  - destruct Hrun as (w' & Hrun & _ & _ & _ & Hlog).
    exists (Some newest), w'. split; [assumption |].
    assert (Hnd : NoDup (map cdn_path (newest :: olds))).
    { eapply Permutation_NoDup.
      - apply Permutation_map. symmetry. exact P.
      - apply candidates_nodup. apply NoDup_nodup. }
    simpl in Hnd. inversion Hnd as [|? ? Hfresh Hnd']; subst.
    split; [| split].
    + destruct (Hcand newest) as (file & Hm & Hc).
      { eapply Permutation_in; [exact P | now left]. }
      exists file. destruct (candidate_some _ _ _ _ Hc) as (Hp & _ & Hv & Hpath).
      auto.
    + intros file v n Hm Hp Hv.
      destruct (Hmatch file Hm) as (d & Hin & Hc).
      destruct (candidate_some _ _ _ _ Hc) as (Hp' & _ & Hv' & _).
      assert (v = cdn_version d) by congruence. subst v.
      assert (n = cdn_version_num d) by congruence. subst n.
      eapply sort_desc_head; eauto.
    + exists (map cdn_path olds). split; [assumption |]. split; [assumption |].
      intros p. split.
      * intros Hin. split; [intros ->; contradiction |].
        apply in_map_iff in Hin as (d & <- & Hin).
        destruct (Hcand d) as (file & Hm & Hc).
        { eapply Permutation_in; [exact P | now right]. }
        exists file. split; [assumption |].
        now destruct (candidate_some _ _ _ _ Hc) as (_ & _ & _ & ->).
      * intros (Hne & file & Hm & ->).
        destruct (Hmatch file Hm) as (d & Hin & Hc).
        destruct (candidate_some _ _ _ _ Hc) as (_ & _ & _ & Hpath).
        apply (Permutation_in _ (Permutation_sym P)) in Hin.
        destruct Hin as [<- | Hin]; [exfalso; apply Hne; symmetry; exact Hpath |].
        change (join root file) with (join (current_path self) file).
        rewrite <- Hpath. now apply in_map.
Qed.

Lemma get_newest_cdn_selects_greatest_witness :
  exists w',
    get_newest_cdn loader calm world_three_versions
    = Ok (Some {| cdn_path := ["srv"; "cdn-1.10.0"];
                  cdn_version := "1.10.0";
                  cdn_version_num := 1100 |}) w' /\
    log w' = [EvRmtree ["srv"; "cdn-1.9.0"]; EvRmtree ["srv"; "cdn-1.2.3"]] /\
    fs_listdir (disk w') ["srv"] = ["cdn-1.10.0"; "cdn-9.9.9"; "cdn_backup_temp"].
Proof.
  destruct (get_newest_cdn_selects_greatest loader calm world_three_versions
              eq_refl) as (r & w' & Hrun & _).
  exists w'.
  assert (E : get_newest_cdn loader calm world_three_versions
              = Ok (Some {| cdn_path := ["srv"; "cdn-1.10.0"];
                            cdn_version := "1.10.0";
                            cdn_version_num := 1100 |})
                   (outcome_world (get_newest_cdn loader calm world_three_versions)))
    by (vm_compute; reflexivity).
  rewrite E in Hrun. injection Hrun as _ <-.
  split; [exact E |]. split; vm_compute; reflexivity.
Defined.

(** ** A small program logic for the loader *)

Lemma hoare_bind {A B} (P : world -> Prop) (m : M A) (Q : A -> world -> Prop)
    (k : A -> M B) (R : B -> world -> Prop) (E : world -> Prop) :
  hoare P m Q E -> (forall a, hoare (Q a) (k a) R E) -> hoare P (bind m k) R E.
Proof.
  intros Hm Hk w Hw. unfold bind. specialize (Hm w Hw).
  destruct (m w) as [a w1 | e w1]; [now apply Hk | assumption].
Qed.

Lemma hoare_conseq {A} (P P' : world -> Prop) (m : M A)
    (Q Q' : A -> world -> Prop) (E E' : world -> Prop) :
  hoare P' m Q' E' ->
  (forall w, P w -> P' w) -> (forall a w, Q' a w -> Q a w) ->
  (forall w, E' w -> E w) -> hoare P m Q E.
Proof.
  intros Hm HP HQ HE w Hw. specialize (Hm w (HP w Hw)).
  destruct (m w); auto.
Qed.

Lemma hoare_pure {A} (V : Prop) (P : world -> Prop) (m : M A)
    (Q : A -> world -> Prop) (E : world -> Prop) :
  (V -> hoare P m Q E) -> hoare (fun w => P w /\ V) m Q E.
Proof. intros H w [Hw Hv]. now apply H. Qed.

Lemma keeps_bind {A B} (P : world -> Prop) (m : M A) (k : A -> M B) :
  keeps P m -> (forall a, keeps P (k a)) -> keeps P (bind m k).
Proof. intros Hm Hk. eapply hoare_bind; [exact Hm | exact Hk]. Qed.

Lemma keeps_ret {A} (P : world -> Prop) (a : A) : keeps P (ret a).
Proof. intros w Hw. exact Hw. Qed.

Lemma keeps_raise {A} (P : world -> Prop) (e : exn) : keeps P (@raise A e).
Proof. intros w Hw. exact Hw. Qed.

Lemma keeps_try_except {A} (P : world -> Prop) (m h : M A) :
  keeps P m -> keeps P h -> keeps P (try_except m h).
Proof.
  intros Hm Hh w Hw. unfold try_except. specialize (Hm w Hw).
  destruct (m w) as [a w1 | e w1]; [assumption |].
  destruct (is_exception e); [now apply Hh | assumption].
Qed.

Lemma keeps_get_fs (P : world -> Prop) : keeps P get_fs.
Proof. intros w Hw. exact Hw. Qed.

Lemma keeps_get_process (P : world -> Prop) : keeps P get_process.
Proof. intros w Hw. exact Hw. Qed.

Lemma keeps_get_clock (P : world -> Prop) : keeps P get_clock.
Proof. intros w Hw. exact Hw. Qed.

Section HoldingArea.

Variable b : path.
Variable w0 : world.

Lemma no_rmtree_emit (e : event) :
  e <> EvRmtree b -> keeps (no_rmtree_since b w0) (emit e).
Proof.
  intros Hne w (l & Hl & Hn). exists (l ++ [e])%list. cbn [log with_event].
  split; [now rewrite Hl, app_assoc |].
  intros Hin. apply in_app_or in Hin as [Hin | [Hin | []]]; [tauto | congruence].
Qed.

Lemma no_rmtree_put_fs (f : filesystem) : keeps (no_rmtree_since b w0) (put_fs f).
Proof. intros w Hw. exact Hw. Qed.

Lemma no_rmtree_put_process (p : option popen) :
  keeps (no_rmtree_since b w0) (put_process p).
Proof. intros w Hw. exact Hw. Qed.

Lemma dir_gone_emit (e : event) : keeps (dir_gone b) (emit e).
Proof. intros w Hw. exact Hw. Qed.

Lemma dir_gone_put_process (p : option popen) : keeps (dir_gone b) (put_process p).
Proof. intros w Hw. exact Hw. Qed.

End HoldingArea.

Ltac keeps_step :=
  lazymatch goal with
  | |- keeps _ (ret _) => apply keeps_ret
  | |- keeps _ (raise _) => apply keeps_raise
  | |- keeps _ get_fs => apply keeps_get_fs
  | |- keeps _ get_process => apply keeps_get_process
  | |- keeps _ get_clock => apply keeps_get_clock
  | |- keeps (no_rmtree_since _ _) (put_fs _) => apply no_rmtree_put_fs
  | |- keeps (no_rmtree_since _ _) (put_process _) => apply no_rmtree_put_process
  | |- keeps (no_rmtree_since _ _) (emit _) => apply no_rmtree_emit; discriminate
  | |- keeps (dir_gone _) (put_process _) => apply dir_gone_put_process
  | |- keeps (dir_gone _) (emit _) => apply dir_gone_emit
  | |- keeps _ (bind _ _) => apply keeps_bind; [| intros ?]
  | |- keeps _ (try_except _ _) => apply keeps_try_except
  | |- keeps _ (if ?c then _ else _) => destruct c
  | |- keeps _ (match ?x with _ => _ end) => destruct x
  end.

Ltac keeps_prims :=
  repeat (progress (unfold launch_cdn, stop_cdn, download_and_extract,
                      download_progress, zip_extractall, os_remove, os_makedirs,
                      write_file, shutil_copy2, shutil_copytree,
                      restore_env_file, get_latest_release));
  cbv zeta; repeat keeps_step.

Section HoldingAreaOps.

Variable self : CDNLoader.
Variable env : environment.
Variable b : path.
Variable w0 : world.

Lemma get_latest_release_keeps :
  keeps (no_rmtree_since b w0) (get_latest_release self env).
Proof. keeps_prims. Qed.

Lemma launch_cdn_keeps (p : path) :
  keeps (no_rmtree_since b w0) (launch_cdn env p).
Proof. keeps_prims. Qed.

Lemma stop_cdn_keeps : keeps (no_rmtree_since b w0) (stop_cdn env).
Proof. keeps_prims. Qed.

Lemma download_and_extract_keeps (rel : release) (version : string) :
  keeps (no_rmtree_since b w0) (download_and_extract self env rel version).
Proof. keeps_prims. Qed.

Lemma restore_env_file_keeps (cdn : path) (d : dict) :
  keeps (no_rmtree_since b w0) (restore_env_file env cdn d).
Proof. keeps_prims. Qed.

Lemma shutil_copy2_keeps (src dst : path) :
  keeps (no_rmtree_since b w0) (shutil_copy2 env src dst).
Proof. keeps_prims. Qed.

Lemma shutil_copytree_keeps (src dst : path) :
  keeps (no_rmtree_since b w0) (shutil_copytree env src dst).
Proof. keeps_prims. Qed.

Lemma os_makedirs_keeps (p : path) :
  keeps (no_rmtree_since b w0) (os_makedirs env p).
Proof. keeps_prims. Qed.

Lemma launch_cdn_keeps_gone (p : path) : keeps (dir_gone b) (launch_cdn env p).
Proof. keeps_prims. Qed.

End HoldingAreaOps.

Lemma hoare_ret {A} (P : world -> Prop) (a : A) (Q : A -> world -> Prop)
    (E : world -> Prop) :
  (forall w, P w -> Q a w) -> hoare P (ret a) Q E.
Proof. intros H w Hw. now apply H. Qed.

Lemma hoare_bind_keeps {A B} (P : world -> Prop) (m : M A) (k : A -> M B)
    (Q : B -> world -> Prop) (E : world -> Prop) :
  keeps P m -> (forall a, hoare P (k a) Q E) -> (forall w, P w -> E w) ->
  hoare P (bind m k) Q E.
Proof.
  intros Hm Hk HE. eapply hoare_bind with (Q := fun _ => P); [| exact Hk].
  eapply hoare_conseq; [exact Hm | auto | auto | auto].
Qed.

Lemma hoare_bind_val {A B} (P : world -> Prop) (V : A -> Prop) (m : M A)
    (k : A -> M B) (Q : B -> world -> Prop) (E : world -> Prop) :
  hoare P m (fun a w => P w /\ V a) P ->
  (forall a, V a -> hoare P (k a) Q E) -> (forall w, P w -> E w) ->
  hoare P (bind m k) Q E.
Proof.
  intros Hm Hk HE. eapply hoare_bind with (Q := fun a w => P w /\ V a).
  - eapply hoare_conseq; [exact Hm | auto | auto | auto].
  - intros a. apply hoare_pure. apply Hk.
Qed.

Lemma keeps_weaken {A} (P R : world -> Prop) (m : M A) :
  keeps P m -> (forall w, P w -> R w) -> hoare P m (fun _ => R) R.
Proof. intros Hm H. eapply hoare_conseq; [exact Hm | auto | auto | auto]. Qed.

Lemma keeps_conseq {A} (P Q E : world -> Prop) (m : M A) :
  keeps P m -> (forall w, P w -> Q w) -> (forall w, P w -> E w) ->
  hoare P m (fun _ => Q) E.
Proof. intros Hm HQ HE. eapply hoare_conseq; [exact Hm | auto | auto | auto]. Qed.

Section HoldingAreaCycle.

Variable self : CDNLoader.
Variable env : environment.
Variable w0 : world.

Lemma shutil_rmtree_keeps (ignore : bool) (b p : path) :
  p <> b -> keeps (no_rmtree_since b w0) (shutil_rmtree env ignore p).
Proof.
  intros Hne. unfold shutil_rmtree.
  apply keeps_bind; [apply no_rmtree_emit; congruence | intros _].
  repeat keeps_step.
Qed.

Lemma fs_isdir_remove_tree (f : filesystem) (p b : path) :
  fs_isdir f b = false -> fs_isdir (fs_remove_tree p f) b = false.
Proof.
  unfold fs_isdir. rewrite fs_lookup_remove_tree.
  destruct (is_prefix p b); auto.
Qed.

Lemma shutil_rmtree_keeps_gone (ignore : bool) (b p : path) :
  keeps (dir_gone b) (shutil_rmtree env ignore p).
Proof.
  intros w Hw. unfold shutil_rmtree. unfold_m. cbn [disk with_event].
  destruct (rmtree_fails env p || negb (fs_isdir (disk w) p));
    [destruct ignore; exact Hw |].
  unfold dir_gone. cbn [disk with_fs with_event]. now apply fs_isdir_remove_tree.
Qed.

Lemma shutil_rmtree_removes (b : path) (P E : world -> Prop) :
  rmtree_fails env b = false ->
  hoare P (shutil_rmtree env true b) (fun _ => dir_gone b) E.
Proof.
  intros Hok w _. unfold shutil_rmtree. unfold_m. cbn [disk with_event].
  rewrite Hok. cbn [orb].
  destruct (fs_isdir (disk w) b) eqn:Hd; cbn [negb]; unfold dir_gone;
    cbn [disk with_fs with_event].
  - unfold fs_isdir. now rewrite fs_lookup_remove_tree, is_prefix_refl.
  - exact Hd.
Qed.

Lemma candidate_not_holding (f : filesystem) (files : list string) (d : cdn_dir) :
  In d (candidates self f files) -> cdn_path d <> holding_area self.
Proof.
  intros Hin. apply in_candidates in Hin as (file & _ & Hc).
  apply candidate_some in Hc as (Hp & _ & _ & ->).
  unfold holding_area. intros E. apply join_inj in E as [_ ->]. discriminate Hp.
Qed.

Lemma get_newest_cdn_hoare :
  hoare (no_rmtree_since (holding_area self) w0) (get_newest_cdn self env)
    (fun r w => no_rmtree_since (holding_area self) w0 w /\
                forall n, r = Some n -> cdn_path n <> holding_area self)
    (no_rmtree_since (holding_area self) w0).
Proof.
  intros w Hw. pose proof (get_newest_cdn_run self env w) as Hrun.
  cbv zeta in Hrun.
  destruct (negb (fs_exists (disk w) (current_path self))).
  { rewrite Hrun. split; [assumption | discriminate]. }
  destruct (negb (fs_isdir (disk w) (current_path self))).
  { rewrite Hrun. assumption. }
  pose proof (sort_desc_perm
                (candidates self (disk w)
                   (fs_listdir (disk w) (current_path self)))) as P.
  destruct (sort_desc _) as [|newest olds].
  - destruct Hrun as [_ Hr]. rewrite Hr. split; [assumption | discriminate].
  - destruct Hrun as (w' & Hr & _ & _ & _ & Hlog). rewrite Hr.
    split.
    + destruct Hw as (l & Hl & Hn).
      exists (l ++ map EvRmtree (map cdn_path olds))%list.
      split; [now rewrite Hlog, Hl, app_assoc |].
      intros Hin. apply in_app_or in Hin as [Hin | Hin]; [tauto |].
      apply in_map_iff in Hin as (p & [= Hp] & Hin).
      apply in_map_iff in Hin as (d & Hd & Hin).
      apply (candidate_not_holding (disk w)
               (fs_listdir (disk w) (current_path self)) d); [| congruence].
      eapply Permutation_in; [exact P | now right].
    + intros n [= <-].
      apply (candidate_not_holding (disk w)
               (fs_listdir (disk w) (current_path self))).
      eapply Permutation_in; [exact P | now left].
Qed.

Lemma backup_persistent_files_hoare (cdn : path) :
  hoare (no_rmtree_since (holding_area self) w0)
    (backup_persistent_files self env cdn)
    (fun r w => no_rmtree_since (holding_area self) w0 w /\
                snd r = holding_area self)
    (no_rmtree_since (holding_area self) w0).
Proof.
  unfold backup_persistent_files. cbv zeta.
  eapply hoare_bind; [apply os_makedirs_keeps | intros ?; cbv beta].
  eapply hoare_bind; [apply keeps_get_fs | intros f].
  eapply hoare_bind.
  { destruct (fs_exists f (join cdn "database.db"));
      [apply shutil_copy2_keeps | apply keeps_ret]. }
  intros ?; cbv beta. eapply hoare_bind; [apply keeps_get_fs | intros f'].
  eapply hoare_bind.
  { destruct (fs_exists f' (join cdn "uploads"));
      [apply shutil_copytree_keeps | apply keeps_ret]. }
  intros ?; cbv beta. apply hoare_ret. intros w Hw. split; [assumption | reflexivity].
Qed.

Lemma restore_persistent_files_hoare (cdn : path) (d : dict) :
  rmtree_fails env (holding_area self) = false ->
  hoare (no_rmtree_since (holding_area self) w0)
    (restore_persistent_files env cdn d (holding_area self))
    (fun _ => dir_gone (holding_area self))
    (no_rmtree_since (holding_area self) w0).
Proof.
  intros Hok. unfold restore_persistent_files. cbv zeta.
  eapply hoare_bind.
  { destruct d; [apply keeps_ret | apply restore_env_file_keeps]. }
  intros ?; cbv beta. eapply hoare_bind; [apply keeps_get_fs | intros f].
  eapply hoare_bind.
  { destruct (fs_exists f _); [apply shutil_copy2_keeps | apply keeps_ret]. }
  intros ?; cbv beta. eapply hoare_bind; [apply keeps_get_fs | intros f'].
  eapply hoare_bind.
  { destruct (fs_exists f' _); [apply shutil_copytree_keeps | apply keeps_ret]. }
  intros ?; cbv beta. now apply shutil_rmtree_removes.
Qed.

(** After a cycle, either no deletion of the holding area was attempted or
    no directory is left at the holding area. *)
Lemma check_and_update_settles :
  rmtree_fails env (holding_area self) = false ->
  hoare (no_rmtree_since (holding_area self) w0) (check_and_update self env)
    (fun _ w => no_rmtree_since (holding_area self) w0 w \/
                dir_gone (holding_area self) w)
    (fun w => no_rmtree_since (holding_area self) w0 w \/
              dir_gone (holding_area self) w).
Proof.
  intros Hok. unfold check_and_update.
  apply hoare_bind_keeps; [apply get_latest_release_keeps | intros lr | auto].
  apply hoare_bind_val
    with (V := fun r => forall n, r = Some n -> cdn_path n <> holding_area self);
    [apply get_newest_cdn_hoare | intros newest Hnewest | auto].
  apply hoare_bind_val
    with (V := fun bk => newest <> None -> snd bk = Some (holding_area self));
    [| intros backup Hb | auto].
  { destruct newest as [n|].
    - eapply hoare_bind; [apply backup_persistent_files_hoare | intros r].
      apply hoare_pure. intros Hr. apply hoare_ret. intros w Hw.
      split; [assumption |]. intros _. cbn [snd]. now rewrite Hr.
    - apply hoare_ret. intros w Hw. split; [assumption | congruence]. }
  cbv zeta. destruct lr as [rel|];
    [| apply keeps_weaken; [keeps_prims | auto]].
  destruct (version_num (tag_name rel)) as [latest|];
    [| apply keeps_weaken; [keeps_prims | auto]].
  destruct newest as [n|].
  - destruct (cdn_version_num n =? latest)%Z;
      [apply keeps_weaken; [keeps_prims | auto] |].
    apply hoare_bind_keeps; [apply stop_cdn_keeps | intros ? | auto].
    apply hoare_bind_keeps;
      [apply download_and_extract_keeps | intros new_cdn_path | auto].
    destruct new_cdn_path as [new_path|];
      [| apply keeps_weaken; [keeps_prims | auto]].
    rewrite (Hb ltac:(discriminate)).
    eapply hoare_bind with (Q := fun _ => dir_gone (holding_area self)).
    + eapply hoare_bind with (Q := fun _ => dir_gone (holding_area self)).
      * eapply hoare_conseq;
          [apply (restore_persistent_files_hoare new_path (fst backup) Hok)
          | auto ..].
      * intros ?; cbv beta. apply keeps_conseq; [| auto | auto].
        apply keeps_try_except; [apply shutil_rmtree_keeps_gone | apply keeps_ret].
    + intros ?; cbv beta. apply keeps_weaken; [| auto].
      apply keeps_bind; [apply launch_cdn_keeps_gone | intros; apply keeps_ret].
  - cbn [negb]. apply keeps_weaken; [keeps_prims | auto].
Qed.

End HoldingAreaCycle.

(** C5 (amended). A cycle of check_and_update that completes and in which
    restore reached the deletion of the holding area (an update was performed
    over an installed version) leaves no holding area directory in the working
    root, provided that deletion did not fail. On the other branches the
    holding area is not deleted. *)
Theorem holding_area_gone_after_update (self : CDNLoader) (env : environment)
    (w w' : world) :
  check_and_update self env w = Ok tt w' ->
  rmtree_fails env (holding_area self) = false ->
  (exists l, log w' = (log w ++ l)%list /\ In (EvRmtree (holding_area self)) l) ->
  fs_isdir (disk w') (holding_area self) = false.
Proof.
  intros Hrun Hok (l & Hl & Hin).
  pose proof (check_and_update_settles self env w Hok w) as H.
  rewrite Hrun in H.
  destruct H as [(l' & Hl' & Hn) | Hgone]; [| | exact Hgone].
  - exists []. split; [now rewrite app_nil_r | intros []].
  - rewrite Hl in Hl'. apply app_inv_head in Hl'. subst l'. contradiction.
Qed.

Lemma holding_area_gone_after_update_witness :
  exists w',
    check_and_update loader env_update world_installed = Ok tt w' /\
    fs_isdir (disk w') (holding_area loader) = false /\
    fs_exists (disk w') (holding_area loader) = false /\
    fs_lookup (disk w') ["srv"; "cdn-1.1.0"; "database.db"] = Some (File "DB") /\
    fs_listdir (disk w') ["srv"] = ["cdn-1.1.0"].
Proof.
  exists (outcome_world (check_and_update loader env_update world_installed)).
  assert (E : check_and_update loader env_update world_installed
              = Ok tt (outcome_world
                         (check_and_update loader env_update world_installed)))
    by (vm_compute; reflexivity).
  split; [exact E |]. split.
  - apply (holding_area_gone_after_update loader env_update world_installed _ E
             eq_refl).
    eexists. split; [vm_compute; reflexivity |]. in_list.
  - repeat split; vm_compute; reflexivity.
Defined.

(** * Further properties *)

(** ** Dictionaries and the configuration file *)

Lemma dict_set_keys (k v : string) (d : dict) :
  map fst (dict_set k v d)
  = match dict_get k d with
    | Some _ => map fst d
    | None => (map fst d ++ [k])%list
    end.
Proof.
  induction d as [|[k0 v0] r IH]; simpl; [reflexivity |].
  destruct (String.eqb_spec k0 k) as [->|Hne]; simpl; [reflexivity |].
  rewrite IH. destruct (dict_get k r); reflexivity.
Qed.

Lemma dict_get_in (k : string) (d : dict) :
  (exists v, dict_get k d = Some v) <-> In k (map fst d).
Proof.
  induction d as [|[k0 v0] r IH]; simpl.
  - split; [intros [v H]; discriminate | tauto].
  - destruct (String.eqb_spec k0 k) as [->|Hne].
    + split; eauto.
    + rewrite IH. split; [auto | intros [E | H]; congruence].
Qed.

Lemma dict_set_wf (k v : string) (d : dict) : dict_wf d -> dict_wf (dict_set k v d).
Proof.
  unfold dict_wf. intros Hwf. rewrite dict_set_keys.
  destruct (dict_get k d) as [v'|] eqn:E; [assumption |].
  apply NoDup_app; [assumption | repeat constructor; auto |].
  intros x Hx [<- | []].
  apply dict_get_in in Hx as [v' Hv]. congruence.
Qed.

Lemma env_line_cases (d : dict) (raw : string) :
  env_line d raw = d \/ exists k v, env_line d raw = dict_set k v d.
Proof.
  unfold env_line.
  destruct (negb (is_empty (strip raw)) && negb (startswith "#" (strip raw))
            && contains "=" (strip raw)); [| now left].
  destruct (split_first "=" (strip raw)) as [k v]. right. eauto.
Qed.

Lemma parse_env_wf (lines : list string) (d : dict) :
  dict_wf d -> dict_wf (parse_env lines d).
Proof.
  unfold parse_env. revert d. induction lines as [|raw lines IH]; intros d Hwf.
  - exact Hwf.
  - simpl. apply IH.
    destruct (env_line_cases d raw) as [-> | (k & v & ->)];
      [assumption | now apply dict_set_wf].
Qed.

(** X1. Whatever the lines of a configuration file are, the mapping the
    loader reads from them has unique keys. *)
Theorem parse_env_unique_keys (lines : list string) (d : dict) :
  dict_wf d -> dict_wf (parse_env lines d).
Proof. exact (parse_env_wf lines d). Qed.

Lemma parse_env_unique_keys_witness :
  dict_wf (parse_env ["a=1"; "# c"; "a=2"; "b = 3"] []) /\
  parse_env ["a=1"; "# c"; "a=2"; "b = 3"] [] = [("a", "2"); ("b", "3")].
Proof.
  split; [| reflexivity].
  apply (parse_env_unique_keys ["a=1"; "# c"; "a=2"; "b = 3"] []). constructor.
Defined.

Lemma dict_merge_keys (a b : dict) (k : string) :
  In k (map fst (dict_merge a b)) <-> In k (map fst a) \/ In k (map fst b).
Proof.
  unfold dict_merge. revert a. induction b as [|[k1 v1] b IH]; intros a; simpl.
  - tauto.
  - rewrite IH, dict_set_keys.
    destruct (dict_get k1 a) as [v|] eqn:E.
    + assert (In k1 (map fst a)) by (apply dict_get_in; eauto).
      split; [tauto | intros [H1 | [<- | H1]]; tauto].
    + rewrite in_app_iff. simpl. tauto.
Qed.

Lemma dict_merge_wf (a b : dict) : dict_wf a -> dict_wf (dict_merge a b).
Proof.
  intros Hwf. unfold dict_merge. revert a Hwf.
  induction b as [|[k1 v1] b IH]; intros a Hwf; simpl; [assumption |].
  apply IH. now apply dict_set_wf.
Qed.

(** X2. Merging a snapshot over a configuration with unique keys gives a
    configuration with unique keys, whose keys are those of the two. *)
Theorem dict_merge_unique_keys (a b : dict) :
  dict_wf a ->
  dict_wf (dict_merge a b) /\
  forall k, In k (map fst (dict_merge a b)) <->
            In k (map fst a) \/ In k (map fst b).
Proof.
  intros Hwf. split; [now apply dict_merge_wf | intros k; apply dict_merge_keys].
Qed.

Lemma dict_merge_unique_keys_witness :
  dict_wf (dict_merge [("a", "1"); ("b", "2")] [("b", "3"); ("c", "4")]).
Proof.
  apply (dict_merge_unique_keys [("a", "1"); ("b", "2")] [("b", "3"); ("c", "4")]).
  unfold dict_wf. simpl. repeat constructor; simpl; intuition discriminate.
Defined.

Lemma dict_set_same (k v : string) (d : dict) :
  dict_get k d = Some v -> dict_set k v d = d.
Proof.
  induction d as [|[k0 v0] r IH]; simpl; [discriminate |].
  destruct (String.eqb_spec k0 k) as [->|Hne].
  - now intros [= ->].
  - intros H. now rewrite IH.
Qed.

Lemma dict_merge_absorb (m b : dict) :
  (forall k v, In (k, v) b -> dict_get k m = Some v) -> dict_merge m b = m.
Proof.
  unfold dict_merge. induction b as [|[k1 v1] b IH]; intros H; simpl; [reflexivity |].
  rewrite dict_set_same by (apply H; now left).
  apply IH. intros k v Hin. apply H. now right.
Qed.

Lemma dict_get_in_wf (k v : string) (d : dict) :
  dict_wf d -> In (k, v) d -> dict_get k d = Some v.
Proof.
  unfold dict_wf. induction d as [|[k0 v0] r IH]; simpl; intros Hwf Hin; [tauto |].
  inversion Hwf as [|? ? Hnotin Hwf']; subst.
  destruct Hin as [[= -> ->] | Hin].
  - now rewrite String.eqb_refl.
  - destruct (String.eqb_spec k0 k) as [->|Hne]; [| auto].
    exfalso. apply Hnotin. apply in_map_iff. exists (k, v). auto.
Qed.

(** X3. Merging the same snapshot a second time changes nothing: restoring
    a snapshot over a configuration that already received it gives the same
    configuration, in the same order. *)
Theorem dict_merge_idempotent (a b : dict) :
  dict_wf b -> dict_merge (dict_merge a b) b = dict_merge a b.
Proof.
  intros Hwf. apply dict_merge_absorb. intros k v Hin.
  rewrite dict_merge_get by assumption.
  now rewrite (dict_get_in_wf k v b Hwf Hin).
Qed.

Lemma dict_merge_idempotent_witness :
  dict_merge (dict_merge [("a", "1"); ("b", "2")] [("b", "3"); ("c", "4")])
             [("b", "3"); ("c", "4")]
  = dict_merge [("a", "1"); ("b", "2")] [("b", "3"); ("c", "4")].
Proof.
  apply (dict_merge_idempotent [("a", "1"); ("b", "2")] [("b", "3"); ("c", "4")]).
  unfold dict_wf. simpl. repeat constructor; simpl; intuition discriminate.
Defined.

(** *** Writing a configuration and reading it back *)

Lemma lstrip_length (s : string) : (String.length (lstrip s) <= String.length s)%nat.
Proof.
  induction s as [|c r IH]; simpl; [lia |].
  destruct (is_space c); simpl; lia.
Qed.

Lemma rstrip_length (s : string) : (String.length (rstrip s) <= String.length s)%nat.
Proof.
  induction s as [|c r IH]; simpl; [lia |].
  destruct (is_space c && is_empty (rstrip r)); simpl; lia.
Qed.

Lemma strip_fixed_head (c : ascii) (r : string) :
  strip (String c r) = String c r -> is_space c = false.
Proof.
  intros H. destruct (is_space c) eqn:E; [| reflexivity].
  exfalso. unfold strip in H. simpl in H. rewrite E in H.
  pose proof (rstrip_length (lstrip r)) as H1.
  pose proof (lstrip_length r) as H2.
  rewrite H in H1. simpl in H1. lia.
Qed.

Lemma strip_fixed_rstrip (s : string) : strip s = s -> rstrip s = s.
Proof.
  destruct s as [|c r]; [reflexivity |]. intros H.
  pose proof (strip_fixed_head c r H) as Hc.
  unfold strip in H. simpl lstrip in H. now rewrite Hc in H.
Qed.

Lemma rstrip_app_nonempty (s t : string) :
  rstrip t = t -> t <> "" -> rstrip (s ++ t) = s ++ t.
Proof.
  intros Ht Hne. induction s as [|c r IH]; simpl; [assumption |].
  rewrite IH. destruct (r ++ t) eqn:E.
  - destruct r; simpl in E; congruence.
  - simpl. now rewrite andb_false_r.
Qed.

Lemma strip_key_value (k v : string) :
  strip k = k -> strip v = v -> strip (k ++ "=" ++ v) = k ++ "=" ++ v.
Proof.
  intros Hk Hv. unfold strip.
  assert (Hl : lstrip (k ++ "=" ++ v) = k ++ "=" ++ v).
  { destruct k as [|c r]; [reflexivity |].
    simpl. now rewrite (strip_fixed_head c r Hk). }
  rewrite Hl. apply rstrip_app_nonempty; [| discriminate].
  simpl. now rewrite (strip_fixed_rstrip v Hv).
Qed.

Lemma contains_app (c : ascii) (a b : string) :
  contains c (a ++ b) = contains c a || contains c b.
Proof.
  induction a as [|x a IH]; simpl; [reflexivity |].
  now rewrite IH, orb_assoc.
Qed.

Lemma split_first_key_value (k v : string) :
  contains "=" k = false -> split_first "=" (k ++ "=" ++ v) = (k, v).
Proof.
  induction k as [|c r IH]; simpl in *; [reflexivity |].
  intros H. apply orb_false_iff in H as [Hc Hr].
  rewrite Hc, (IH Hr). reflexivity.
Qed.

Lemma startswith_hash_cons (c : ascii) (r : string) :
  startswith "#" (String c r) = Ascii.eqb c "#".
Proof.
  unfold startswith. cbn [String.prefix].
  destruct (ascii_dec "#" c) as [<-|Hne].
  - destruct r; reflexivity.
  - symmetry. apply Ascii.eqb_neq. congruence.
Qed.

Lemma startswith_hash_app (k t : string) :
  startswith "#" k = false -> k <> "" -> startswith "#" (k ++ t) = false.
Proof.
  destruct k as [|c r]; [congruence |]. intros H _.
  cbn [append]. now rewrite startswith_hash_cons in *.
Qed.

Lemma env_line_entry (d : dict) (k v : string) :
  entry_ok (k, v) -> env_line d (k ++ "=" ++ v) = dict_set k v d.
Proof.
  intros (_ & _ & Hk & Hv & Heq & Hhash). cbn [fst snd] in *.
  unfold env_line. rewrite (strip_key_value k v Hk Hv).
  assert (E1 : is_empty (k ++ "=" ++ v) = false) by (destruct k; reflexivity).
  assert (E2 : startswith "#" (k ++ "=" ++ v) = false).
  { destruct k as [|c r] eqn:Ek; [reflexivity |].
    apply startswith_hash_app; [assumption | discriminate]. }
  assert (E3 : contains "=" (k ++ "=" ++ v) = true).
  { rewrite contains_app. simpl. now rewrite orb_true_r. }
  rewrite E1, E2, E3. cbn [negb andb].
  rewrite (split_first_key_value k v Heq), Hk, Hv. reflexivity.
Qed.

Lemma rstrip_cons (c : ascii) (r : string) :
  is_space c = false -> rstrip (String c r) = String c (rstrip r).
Proof. intros H. simpl. now rewrite H. Qed.

Lemma lstrip_cons (c : ascii) (r : string) :
  is_space c = false -> lstrip (String c r) = String c r.
Proof. intros H. simpl. now rewrite H. Qed.

Lemma env_line_comment (d : dict) (r : string) : env_line d (String "#" r) = d.
Proof.
  unfold env_line, strip.
  rewrite lstrip_cons, rstrip_cons by reflexivity.
  rewrite startswith_hash_cons. cbn [is_empty negb Ascii.eqb Bool.eqb andb].
  reflexivity.
Qed.

Lemma no_break_cons (c : ascii) (s : string) :
  no_break (String c s) = true ->
  Ascii.eqb c "010" = false /\ Ascii.eqb c "013" = false /\ no_break s = true.
Proof.
  unfold no_break. simpl. intros H.
  apply andb_true_iff in H as [H1 H2].
  apply negb_true_iff, orb_false_iff in H1 as [A1 B1].
  apply negb_true_iff, orb_false_iff in H2 as [A2 B2].
  rewrite B1, B2. auto.
Qed.

Lemma no_break_app (a b : string) :
  no_break (a ++ b) = no_break a && no_break b.
Proof.
  unfold no_break. rewrite !contains_app.
  destruct (contains "010" a), (contains "010" b), (contains "013" a),
    (contains "013" b); reflexivity.
Qed.

Lemma file_lines_line (s rest : string) :
  no_break s = true ->
  file_lines (s ++ String "010" rest) = s :: file_lines rest.
Proof.
  induction s as [|c r IH]; intros H.
  - reflexivity.
  - apply no_break_cons in H as (Hn & Hr & H).
    cbn [append file_lines]. rewrite Hn, Hr, (IH H). reflexivity.
Qed.

Lemma concat_empty_cons (x : string) (xs : list string) :
  concat "" (x :: xs) = x ++ concat "" xs.
Proof.
  destruct xs as [|y ys]; [now rewrite append_empty_r | reflexivity].
Qed.

Lemma parse_env_body (d : dict) (acc : dict) :
  Forall entry_ok d ->
  parse_env (file_lines (concat "" (map env_entry_line d))) acc
  = fold_left (fun a kv => dict_set (fst kv) (snd kv) a) d acc.
Proof.
  unfold parse_env. intros Hok. revert acc.
  induction Hok as [|[k v] d Hkv Hd IH]; intros acc; [reflexivity |].
  cbn [map]. rewrite concat_empty_cons. unfold env_entry_line at 1, newline.
  cbn [fst snd].
  replace ((k ++ "=" ++ v ++ String "010" "") ++ concat "" (map env_entry_line d))
    with ((k ++ "=" ++ v) ++ String "010" (concat "" (map env_entry_line d))).
  2:{ rewrite ?append_assoc. cbn [append]. rewrite ?append_assoc. reflexivity. }
  rewrite file_lines_line.
  - cbn [fold_left]. rewrite (env_line_entry acc k v Hkv). apply IH.
  - destruct Hkv as (Bk & Bv & _). cbn [fst snd] in *.
    rewrite !no_break_app, Bk, Bv. reflexivity.
Qed.

Lemma render_env_shape (timestamp : string) (d : dict) :
  render_env timestamp d
  = String "#" (" Last updated: " ++ timestamp)
    ++ String "010"
         (String "010"
            (String "#" " should have been migrated from prev version"
             ++ String "010" (concat "" (map env_entry_line d)))).
Proof.
  unfold render_env. cbn [append]. rewrite !append_assoc. cbn [append].
  reflexivity.
Qed.

Lemma dict_set_fresh (k v : string) (d : dict) :
  ~ In k (map fst d) -> dict_set k v d = (d ++ [(k, v)])%list.
Proof.
  induction d as [|[k0 v0] r IH]; simpl; intros H; [reflexivity |].
  destruct (String.eqb_spec k0 k) as [->|Hne]; [tauto |].
  rewrite IH by tauto. reflexivity.
Qed.

Lemma fold_dict_set_fresh (d acc : dict) :
  NoDup (map fst (acc ++ d)) ->
  fold_left (fun a kv => dict_set (fst kv) (snd kv) a) d acc = (acc ++ d)%list.
Proof.
  revert acc. induction d as [|[k v] d IH]; intros acc Hnd; simpl.
  - now rewrite app_nil_r.
  - rewrite dict_set_fresh.
    + rewrite IH; rewrite <- app_assoc; [reflexivity | exact Hnd].
    + rewrite map_app in Hnd. simpl in Hnd.
      apply NoDup_remove_2 in Hnd. intros Hin. apply Hnd.
      apply in_or_app. now left.
Qed.

Lemma parse_env_render (timestamp : string) (d : dict) :
  dict_wf d -> Forall entry_ok d -> no_break timestamp = true ->
  parse_env (file_lines (render_env timestamp d)) [] = d.
Proof.
  intros Hwf Hok Hts. rewrite render_env_shape.
  assert (Hhead : no_break (String "#" (" Last updated: " ++ timestamp)) = true).
  { change (String "#" (" Last updated: " ++ timestamp))
      with ("# Last updated: " ++ timestamp).
    rewrite no_break_app, Hts. reflexivity. }
  rewrite file_lines_line by exact Hhead.
  change (String "010" ?x) with ("" ++ String "010" x) at 1.
  rewrite file_lines_line by reflexivity.
  rewrite file_lines_line by reflexivity.
  unfold parse_env. cbn [fold_left].
  rewrite env_line_comment. change (env_line [] "") with (@nil (string * string)).
  rewrite env_line_comment.
  fold (parse_env (file_lines (concat "" (map env_entry_line d))) []).
  rewrite parse_env_body by assumption.
  now apply (fold_dict_set_fresh d []).
Qed.

(** X4. Reading back a configuration file written by restore gives the
    configuration that was written, in the same order, when its keys are
    unique and its keys and values are such as the reader produces (stripped,
    on one line, no [=] in a key, no key starting a comment) and the timestamp
    is on one line. *)
Theorem config_round_trip (timestamp : string) (d : dict) :
  dict_wf d -> Forall entry_ok d -> no_break timestamp = true ->
  parse_env (file_lines (render_env timestamp d)) [] = d.
Proof. exact (parse_env_render timestamp d). Qed.

Lemma config_round_trip_witness :
  parse_env
    (file_lines
       (render_env "2025-01-01T00:00:00" [("URL", "http://x/?a=b"); ("", "v")]))
    []
  = [("URL", "http://x/?a=b"); ("", "v")].
Proof.
  apply (config_round_trip "2025-01-01T00:00:00"
           [("URL", "http://x/?a=b"); ("", "v")]).
  - unfold dict_wf. simpl. repeat constructor; simpl; intuition discriminate.
  - repeat constructor.
  - reflexivity.
Defined.

(** *** What the reader produces *)

Lemma no_break_intro (c : ascii) (s : string) :
  Ascii.eqb c "010" = false -> Ascii.eqb c "013" = false ->
  no_break s = true -> no_break (String c s) = true.
Proof.
  unfold no_break. simpl. intros -> -> H. exact H.
Qed.

Lemma file_lines_no_break_bounded (n : nat) (s : string) :
  (String.length s <= n)%nat ->
  Forall (fun l => no_break l = true) (file_lines s).
Proof.
  revert s. induction n as [|n IH]; intros s Hlen.
  - destruct s; [constructor | simpl in Hlen; lia].
  - destruct s as [|c r]; [constructor |].
    simpl in Hlen. cbn [file_lines].
    destruct (Ascii.eqb c "010") eqn:En.
    { constructor; [reflexivity | apply IH; lia]. }
    destruct (Ascii.eqb c "013") eqn:Er.
    { destruct r as [|c' r']; [repeat constructor |].
      assert (Hr' : Forall (fun l => no_break l = true) (file_lines r'))
        by (apply IH; simpl in Hlen; lia).
      assert (Hr : Forall (fun l => no_break l = true) (file_lines (String c' r')))
        by (apply IH; lia).
      destruct c' as [[] [] [] [] [] [] [] []];
        first [ constructor; [reflexivity | exact Hr']
              | constructor; [reflexivity | exact Hr] ]. }
    assert (Hr : Forall (fun l => no_break l = true) (file_lines r))
      by (apply IH; lia).
    destruct (file_lines r) as [|l ls].
    + repeat constructor. now apply no_break_intro.
    + inversion Hr; subst. constructor; [now apply no_break_intro | assumption].
Qed.

Lemma file_lines_no_break (s : string) :
  Forall (fun l => no_break l = true) (file_lines s).
Proof. apply (file_lines_no_break_bounded (String.length s)). lia. Qed.

Lemma contains_lstrip (c : ascii) (s : string) :
  contains c s = false -> contains c (lstrip s) = false.
Proof.
  induction s as [|x r IH]; simpl; [auto |].
  intros H. apply orb_false_iff in H as [Hx Hr].
  destruct (is_space x); [auto |]. simpl. now rewrite Hx, Hr.
Qed.

Lemma contains_rstrip (c : ascii) (s : string) :
  contains c s = false -> contains c (rstrip s) = false.
Proof.
  induction s as [|x r IH]; simpl; [auto |].
  intros H. apply orb_false_iff in H as [Hx Hr].
  destruct (is_space x && is_empty (rstrip r)); [reflexivity |].
  simpl. now rewrite Hx, IH.
Qed.

Lemma contains_strip (c : ascii) (s : string) :
  contains c s = false -> contains c (strip s) = false.
Proof. intros H. unfold strip. now apply contains_rstrip, contains_lstrip. Qed.

Lemma no_break_false_iff (s : string) :
  no_break s = true <-> contains "010" s = false /\ contains "013" s = false.
Proof.
  unfold no_break. rewrite andb_true_iff, !negb_true_iff. reflexivity.
Qed.

Lemma no_break_strip (s : string) : no_break s = true -> no_break (strip s) = true.
Proof.
  rewrite !no_break_false_iff. intros [H1 H2].
  split; now apply contains_strip.
Qed.

Lemma contains_split_first (c : ascii) (s : string) :
  contains c s = false ->
  contains c (fst (split_first "=" s)) = false /\
  contains c (snd (split_first "=" s)) = false.
Proof.
  induction s as [|x r IH]; simpl; [auto |].
  intros H. apply orb_false_iff in H as [Hx Hr].
  destruct (Ascii.eqb x "="); [simpl; auto |].
  destruct (split_first "=" r) as [k v]. simpl in *.
  destruct (IH Hr) as [Hk Hv]. now rewrite Hx, Hk.
Qed.

Lemma split_first_key_clean (s : string) :
  contains "=" (fst (split_first "=" s)) = false.
Proof.
  induction s as [|x r IH]; simpl; [reflexivity |].
  destruct (Ascii.eqb x "=") eqn:E; [reflexivity |].
  destruct (split_first "=" r) as [k v]. simpl in *. now rewrite E, IH.
Qed.

Lemma lstrip_head_ok (s : string) : head_ok (lstrip s).
Proof.
  induction s as [|c r IH]; simpl; [exact I |].
  destruct (is_space c) eqn:E; [exact IH | exact E].
Qed.

Lemma rstrip_head_ok (s : string) : head_ok s -> head_ok (rstrip s).
Proof.
  destruct s as [|c r]; simpl; [auto |]. intros H. now rewrite H.
Qed.

Lemma lstrip_of_head_ok (s : string) : head_ok s -> lstrip s = s.
Proof. destruct s as [|c r]; simpl; [auto |]. now intros ->. Qed.

Lemma rstrip_idempotent (s : string) : rstrip (rstrip s) = rstrip s.
Proof.
  induction s as [|c r IH]; simpl; [reflexivity |].
  destruct (is_space c && is_empty (rstrip r)) eqn:E; [reflexivity |].
  simpl. now rewrite IH, E.
Qed.

Lemma strip_head_ok (s : string) : head_ok (strip s).
Proof. unfold strip. apply rstrip_head_ok, lstrip_head_ok. Qed.

Lemma strip_idempotent (s : string) : strip (strip s) = strip s.
Proof.
  unfold strip at 1. rewrite (lstrip_of_head_ok _ (strip_head_ok s)).
  unfold strip. apply rstrip_idempotent.
Qed.

Lemma key_not_comment (line : string) :
  head_ok line -> startswith "#" line = false ->
  startswith "#" (strip (fst (split_first "=" line))) = false.
Proof.
  destruct line as [|c r]; [reflexivity |]. simpl head_ok. intros Hc Hh.
  rewrite startswith_hash_cons in Hh. cbn [split_first].
  destruct (Ascii.eqb c "="); [reflexivity |].
  destruct (split_first "=" r) as [k v]. cbn [fst].
  unfold strip. rewrite lstrip_cons, rstrip_cons by assumption.
  now rewrite startswith_hash_cons.
Qed.

Lemma dict_set_forall (P : string * string -> Prop) (k v : string) (d : dict) :
  Forall P d -> P (k, v) -> Forall P (dict_set k v d).
Proof.
  intros Hd Hkv. induction Hd as [|[k0 v0] r H0 Hr IH]; simpl.
  - now constructor.
  - destruct (String.eqb k0 k); constructor; auto.
Qed.

Lemma env_line_entry_ok (d : dict) (raw : string) :
  no_break raw = true -> Forall entry_ok d -> Forall entry_ok (env_line d raw).
Proof.
  intros Hraw Hd. unfold env_line.
  destruct (negb (is_empty (strip raw)) && negb (startswith "#" (strip raw))
            && contains "=" (strip raw)) eqn:E; [| assumption].
  apply andb_true_iff in E as [E _]. apply andb_true_iff in E as [_ Hh].
  apply negb_true_iff in Hh.
  pose proof (no_break_strip raw Hraw) as Hline.
  apply no_break_false_iff in Hline as [Hn Hr].
  pose proof (contains_split_first "010" _ Hn) as [Kn Vn].
  pose proof (contains_split_first "013" _ Hr) as [Kr Vr].
  pose proof (split_first_key_clean (strip raw)) as Kc.
  pose proof (key_not_comment (strip raw) (strip_head_ok raw) Hh) as Kh.
  destruct (split_first "=" (strip raw)) as [k v]. cbn [fst snd] in *.
  apply dict_set_forall; [assumption |].
  repeat split; cbn [fst snd].
  - apply no_break_strip, no_break_false_iff. auto.
  - apply no_break_strip, no_break_false_iff. auto.
  - apply strip_idempotent.
  - apply strip_idempotent.
  - now apply contains_strip.
  - exact Kh.
Qed.

Lemma parse_env_entry_ok (lines : list string) (d : dict) :
  Forall (fun l => no_break l = true) lines -> Forall entry_ok d ->
  Forall entry_ok (parse_env lines d).
Proof.
  unfold parse_env. intros Hl. revert d.
  induction Hl as [|raw lines Hraw Hl IH]; intros d Hd; [assumption |].
  simpl. apply IH. now apply env_line_entry_ok.
Qed.

Lemma dict_merge_forall (P : string * string -> Prop) (a b : dict) :
  Forall P a -> Forall P b -> Forall P (dict_merge a b).
Proof.
  unfold dict_merge. intros Ha Hb. revert a Ha.
  induction Hb as [|[k v] b Hkv Hb IH]; intros a Ha; simpl; [assumption |].
  apply IH. now apply dict_set_forall.
Qed.

Lemma Forall_firstn_of {A} (P : A -> Prop) (n : nat) (l : list A) :
  Forall P l -> Forall P (firstn n l).
Proof.
  intros H. revert n. induction H as [|x l Hx Hl IH]; intros [|n]; simpl;
    constructor; auto.
Qed.

Lemma read_lines_no_break (env : environment) (f : filesystem) (p : path) :
  Forall (fun l => no_break l = true) (fst (read_lines env f p)).
Proof.
  unfold read_lines. destruct (fs_lookup f p) as [[|data]|]; try constructor.
  destruct (read_fails env p) as [n|]; cbn [fst].
  - apply Forall_firstn_of, file_lines_no_break.
  - apply file_lines_no_break.
Qed.

Lemma stored_config_ok (env : environment) (f : filesystem) (p : path) :
  dict_wf (stored_config env f p) /\ Forall entry_ok (stored_config env f p).
Proof.
  unfold stored_config. destruct (fs_exists f p).
  - split.
    + apply parse_env_wf. constructor.
    + apply parse_env_entry_ok; [apply read_lines_no_break | constructor].
  - split; constructor.
Qed.

(** X5. When restore_env_file writes the configuration file of the target,
    the configuration read back from that file is the merge of what the
    target held with the snapshot: nothing is lost or altered by the file
    format, for every snapshot whose entries are such as the reader
    produces. *)
Theorem restored_config_reads_back (env : environment) (cdn : path)
    (snapshot : dict) (w : world) :
  snapshot <> [] -> Forall entry_ok snapshot ->
  write_fails env (join cdn ".env") = false ->
  read_fails env (join cdn ".env") = None ->
  fs_isdir (disk w) cdn = true ->
  fs_isdir (disk w) (join cdn ".env") = false ->
  no_break (isoformat_now env (clock w)) = true ->
  exists w',
    restore_env_file env cdn snapshot w = Ok tt w' /\
    stored_config env (disk w') (join cdn ".env")
    = dict_merge (stored_config env (disk w) (join cdn ".env")) snapshot.
Proof.
  intros Hne Hok Hw Hr Hcdn Henv Hts.
  destruct (stored_config_ok env (disk w) (join cdn ".env")) as [Hwf Hex].
  unfold restore_env_file. destruct snapshot as [|kv rest] eqn:Es; [congruence |].
  rewrite <- Es in *.
  unfold bind at 1. unfold get_fs at 1. unfold bind at 1. unfold get_clock at 1.
  unfold try_except.
  rewrite write_file_ok by (rewrite ?parent_join; assumption).
  eexists. split; [reflexivity |]. cbn [disk with_fs with_event].
  fold (stored_config env (disk w) (join cdn ".env")).
  set (merged := dict_merge (stored_config env (disk w) (join cdn ".env")) snapshot).
  unfold stored_config at 1, fs_exists, read_lines.
  rewrite fs_lookup_set, path_eqb_refl, Hr. cbn [fst].
  apply parse_env_render; [| | assumption].
  - now apply dict_merge_wf.
  - now apply dict_merge_forall.
Qed.

Lemma restored_config_reads_back_witness :
  exists w',
    restore_env_file calm ["srv"; "cdn-1.3.0"] [("DEBUG", "1"); ("KEY", "a=b")]
      world_config = Ok tt w' /\
    stored_config calm (disk w') (join ["srv"; "cdn-1.3.0"] ".env")
    = dict_merge (stored_config calm (disk world_config)
                    (join ["srv"; "cdn-1.3.0"] ".env"))
                 [("DEBUG", "1"); ("KEY", "a=b")].
Proof.
  apply (restored_config_reads_back calm ["srv"; "cdn-1.3.0"]
           [("DEBUG", "1"); ("KEY", "a=b")] world_config);
    try reflexivity; [discriminate | repeat constructor].
Defined.

(** X6. The snapshot backup_persistent_files returns has unique keys, and
    each of its keys and values is stripped, holds no line terminator, and no
    key contains [=] or starts a comment: it is a snapshot that restore writes
    and reads back unchanged. The holding area it returns is the directory
    cdn_backup_temp of the working root. *)
Theorem backup_snapshot_well_formed (self : CDNLoader) (env : environment)
    (cdn : path) (w w' : world) (content : dict) (dir : path) :
  backup_persistent_files self env cdn w = Ok (content, dir) w' ->
  dict_wf content /\ Forall entry_ok content /\ dir = holding_area self.
Proof.
  intros Hrun.
  assert (H : hoare (fun _ => True) (backup_persistent_files self env cdn)
                (fun r _ => dict_wf (fst r) /\ Forall entry_ok (fst r) /\
                            snd r = holding_area self)
                (fun _ => True)).
  { unfold backup_persistent_files. cbv zeta.
    eapply hoare_bind with (Q := fun _ _ => True);
      [intros w1 _; destruct (os_makedirs _ _ _); exact I | intros ?; cbv beta].
    eapply hoare_bind with (Q := fun _ _ => True);
      [intros w1 _; exact I | intros f; cbv beta].
    eapply hoare_bind with (Q := fun _ _ => True);
      [intros w1 _; match goal with |- match ?m w1 with _ => _ end =>
                      destruct (m w1) end; exact I
      | intros ?; cbv beta].
    eapply hoare_bind with (Q := fun _ _ => True);
      [intros w1 _; exact I | intros f'; cbv beta].
    eapply hoare_bind with (Q := fun _ _ => True);
      [intros w1 _; match goal with |- match ?m w1 with _ => _ end =>
                      destruct (m w1) end; exact I
      | intros ?; cbv beta].
    apply hoare_ret. intros w1 _. cbn [fst snd].
    fold (stored_config env f (join cdn ".env")).
    destruct (stored_config_ok env f (join cdn ".env")). auto. }
  specialize (H w I). rewrite Hrun in H. exact H.
Qed.

Lemma backup_snapshot_well_formed_witness :
  dict_wf [("PORT", "80"); ("DEBUG", "0")] /\
  Forall entry_ok [("PORT", "80"); ("DEBUG", "0")] /\
  ["srv"; "cdn_backup_temp"] = holding_area loader.
Proof.
  apply (backup_snapshot_well_formed loader calm ["srv"; "cdn-1.3.0"] world_config
           (outcome_world
              (backup_persistent_files loader calm ["srv"; "cdn-1.3.0"]
                 world_config))).
  vm_compute. reflexivity.
Defined.

(** ** Discovery in the steady state *)

Lemma below_app (p : path) (n : string) : below p (join p n) = Some [n].
Proof.
  induction p as [|a p IH]; simpl; [reflexivity |].
  now rewrite String.eqb_refl.
Qed.

Lemma fs_listdir_in (f : filesystem) (p : path) (n : string) (x : node) :
  fs_lookup f (join p n) = Some x -> In n (fs_listdir f p).
Proof.
  intros H. apply fs_lookup_in in H. unfold fs_listdir.
  apply nodup_In, in_flat_map. exists (join p n, x).
  split; [assumption |]. cbn [fst]. rewrite below_app. now left.
Qed.

Lemma is_prefix_join_same (r : path) (a b : string) :
  is_prefix (join r a) (join r b) = true -> a = b.
Proof.
  induction r as [|x r IH]; simpl.
  - rewrite andb_true_r. apply String.eqb_eq.
  - rewrite String.eqb_refl. exact IH.
Qed.

Lemma is_prefix_join_root (r : path) (a : string) : is_prefix (join r a) r = false.
Proof.
  induction r as [|x r IH]; simpl; [reflexivity |].
  now rewrite String.eqb_refl.
Qed.

Lemma prune_lookup (env : environment) (olds : list cdn_dir) (w w' : world)
    (q : path) :
  (forall p, rmtree_fails env p = false) ->
  prune env olds w = Ok tt w' ->
  (fs_lookup (disk w') q = None \/ fs_lookup (disk w') q = fs_lookup (disk w) q) /\
  ((forall d, In d olds -> is_prefix (cdn_path d) q = false) ->
   fs_lookup (disk w') q = fs_lookup (disk w) q) /\
  (forall d, In d olds -> q = cdn_path d -> fs_isdir (disk w) q = true ->
             fs_lookup (disk w') q = None).
Proof.
  intros Hok. revert w. induction olds as [|o olds IH]; intros w Hrun.
  - injection Hrun as <-. split; [now right |]. split; [auto | intros d []].
  - cbn [prune] in Hrun. unfold bind at 1 in Hrun. unfold try_except in Hrun.
    unfold shutil_rmtree in Hrun. unfold_m. cbn [disk with_event] in Hrun.
    rewrite Hok in Hrun. cbn [orb is_exception] in Hrun.
    destruct (fs_isdir (disk w) (cdn_path o)) eqn:Hd; cbn [negb] in Hrun.
    + destruct (IH _ Hrun) as (H1 & H2 & H3). cbn [disk with_fs with_event] in *.
      rewrite fs_lookup_remove_tree in *.
      split; [| split].
      * destruct (is_prefix (cdn_path o) q); [destruct H1; auto |].
        exact H1.
      * intros Hno. rewrite H2 by (intros d Hin; apply Hno; now right).
        now rewrite (Hno o (or_introl eq_refl)).
      * intros d [<- | Hin] -> Hq.
        -- rewrite is_prefix_refl in H1. destruct H1; assumption.
        -- destruct (is_prefix (cdn_path o) (cdn_path d)) eqn:Hp;
             [destruct H1; assumption |].
           apply (H3 d Hin eq_refl). unfold fs_isdir.
           rewrite fs_lookup_remove_tree, Hp. exact Hq.
    + destruct (IH _ Hrun) as (H1 & H2 & H3). cbn [disk with_fs with_event] in *.
      split; [exact H1 |]. split.
      * intros Hno. apply H2. intros d Hin. apply Hno. now right.
      * intros d [<- | Hin] -> Hq; [congruence | now apply (H3 d Hin)].
Qed.

Lemma candidate_same_file (self : CDNLoader) (f f' : filesystem) (file : string)
    (d d' : cdn_dir) :
  candidate self f file = Some d -> candidate self f' file = Some d' -> d = d'.
Proof.
  unfold candidate. destruct (cdn_pattern file) as [v|]; [| discriminate].
  destruct (fs_isdir f _); [| discriminate].
  destruct (fs_isdir f' _); [| destruct (version_num v); discriminate].
  destruct (version_num v); congruence.
Qed.

(** What is left on disk after a discovery whose deletions all succeed. *)
Lemma get_newest_cdn_after (self : CDNLoader) (env : environment) (w w' : world)
    (newest : cdn_dir) :
  (forall p, rmtree_fails env p = false) ->
  get_newest_cdn self env w = Ok (Some newest) w' ->
  fs_isdir (disk w') (current_path self) = true /\
  (exists file, candidate self (disk w) file = Some newest /\
                candidate self (disk w') file = Some newest /\
                matching self (disk w') file) /\
  (forall file, matching self (disk w') file ->
                join (current_path self) file = cdn_path newest).
Proof.
  intros Hok Hrun.
  pose proof (get_newest_cdn_run self env w) as R. cbv zeta in R.
  destruct (negb (fs_exists (disk w) (current_path self))); [congruence |].
  destruct (negb (fs_isdir (disk w) (current_path self))) eqn:Hroot; [congruence |].
  apply negb_false_iff in Hroot.
  set (cands := candidates self (disk w)
                  (fs_listdir (disk w) (current_path self))) in *.
  pose proof (sort_desc_perm cands) as P.
  destruct (sort_desc cands) as [|n olds] eqn:Es; [destruct R; congruence |].
  destruct R as (w1 & R1 & Hprune & _). rewrite R1 in Hrun.
  injection Hrun as -> ->.
  assert (Hnd : NoDup (map cdn_path (newest :: olds))).
  { eapply Permutation_NoDup; [apply Permutation_map; symmetry; exact P |].
    apply candidates_nodup, NoDup_nodup. }
  assert (Hin_c : forall d, In d (newest :: olds) ->
            exists file, In file (fs_listdir (disk w) (current_path self)) /\
                         candidate self (disk w) file = Some d).
  { intros d Hin. apply in_candidates. eapply Permutation_in; eauto. }
  assert (Hdisjoint : forall d file, In d olds ->
            join (current_path self) file <> cdn_path d ->
            is_prefix (cdn_path d) (join (current_path self) file) = false).
  { intros d file Hin Hne.
    destruct (Hin_c d (or_intror Hin)) as (fd & _ & Hc).
    apply candidate_some in Hc as (_ & _ & _ & Hp). rewrite Hp in *.
    destruct (is_prefix _ _) eqn:E; [| reflexivity].
    apply is_prefix_join_same in E. congruence. }
  assert (Hroot' : fs_isdir (disk w') (current_path self) = true).
  { unfold fs_isdir.
    destruct (prune_lookup env olds w w' (current_path self) Hok Hprune)
      as (_ & H2 & _).
    rewrite H2; [exact Hroot |]. intros d Hin.
    destruct (Hin_c d (or_intror Hin)) as (fd & _ & Hc).
    apply candidate_some in Hc as (_ & _ & _ & ->). apply is_prefix_join_root. }
  split; [exact Hroot' |].
  destruct (Hin_c newest (or_introl eq_refl)) as (nf & Hnf & Hcn).
  pose proof (candidate_some _ _ _ _ Hcn) as (Hpat & Hdir & Hver & Hpath).
  assert (Hkeep : fs_lookup (disk w') (join (current_path self) nf)
                  = fs_lookup (disk w) (join (current_path self) nf)).
  { destruct (prune_lookup env olds w w' (join (current_path self) nf) Hok Hprune)
      as (_ & H2 & _).
    apply H2. intros d Hin. apply Hdisjoint; [assumption |].
    rewrite <- Hpath. intros E. inversion Hnd as [|? ? Hfresh _]; subst.
    apply Hfresh. rewrite E. now apply in_map. }
  assert (Hdir' : fs_isdir (disk w') (join (current_path self) nf) = true).
  { unfold fs_isdir in *. now rewrite Hkeep. }
  split.
  - exists nf. split; [assumption |]. split.
    + unfold candidate in *. rewrite Hpat in *. rewrite Hdir in Hcn.
      now rewrite Hdir'.
    + split; [| split; [congruence | assumption]].
      unfold fs_isdir in Hdir'.
      destruct (fs_lookup (disk w') (join (current_path self) nf)) as [x|] eqn:E;
        [| discriminate].
      eapply fs_listdir_in; eauto.
  - intros file (Hl & Hp & Hd).
    assert (Hd0 : fs_isdir (disk w) (join (current_path self) file) = true).
    { destruct (prune_lookup env olds w w' (join (current_path self) file)
                  Hok Hprune) as ([H1 | H1] & _); unfold fs_isdir in *.
      - rewrite H1 in Hd. discriminate.
      - now rewrite <- H1. }
    destruct (candidate_of_match self (disk w) file Hp Hd0) as [d Hc].
    pose proof (candidate_some _ _ _ _ Hc) as (_ & _ & _ & Hpd).
    assert (Hin : In d (newest :: olds)).
    { eapply Permutation_in; [symmetry; exact P |]. apply in_candidates.
      exists file. split; [| assumption].
      unfold fs_isdir in Hd0.
      destruct (fs_lookup (disk w) (join (current_path self) file)) as [x|] eqn:E;
        [| discriminate].
      eapply fs_listdir_in; eauto. }
    destruct Hin as [<- | Hin]; [now symmetry |].
    exfalso.
    destruct (prune_lookup env olds w w' (join (current_path self) file) Hok Hprune)
      as (_ & _ & H3).
    unfold fs_isdir in Hd. rewrite (H3 d Hin (eq_sym Hpd) Hd0) in Hd. discriminate.
Qed.

(** X7. After a discovery that returns a version and whose deletions all
    succeed, the working root is still a directory and the returned version
    is the only installed version directory in it: a child directory matches
    the version pattern exactly when it is the one returned. *)
Theorem discovery_leaves_one_version (self : CDNLoader) (env : environment)
    (w w' : world) (newest : cdn_dir) :
  (forall p, rmtree_fails env p = false) ->
  get_newest_cdn self env w = Ok (Some newest) w' ->
  fs_isdir (disk w') (current_path self) = true /\
  forall file, matching self (disk w') file <->
               join (current_path self) file = cdn_path newest.
Proof.
  intros Hok Hrun.
  destruct (get_newest_cdn_after self env w w' newest Hok Hrun)
    as (Hroot & (nf & Hc & _ & Hm) & Honly).
  split; [assumption |]. intros file. split; [apply Honly |].
  intros E. apply candidate_some in Hc as (_ & _ & _ & Hp).
  rewrite Hp in E. apply join_inj in E as [_ ->]. exact Hm.
Qed.

Lemma discovery_leaves_one_version_witness :
  matching loader
    (disk (outcome_world (get_newest_cdn loader calm world_three_versions)))
    "cdn-1.10.0" /\
  ~ matching loader
      (disk (outcome_world (get_newest_cdn loader calm world_three_versions)))
      "cdn-1.9.0".
Proof.
  destruct (discovery_leaves_one_version loader calm world_three_versions
              (outcome_world (get_newest_cdn loader calm world_three_versions))
              {| cdn_path := ["srv"; "cdn-1.10.0"];
                 cdn_version := "1.10.0";
                 cdn_version_num := 1100 |}) as [_ H].
  - reflexivity.
  - vm_compute. reflexivity.
  - split.
    + apply H. reflexivity.
    + intros Hm. apply H in Hm. discriminate.
Defined.

(** ** What a cycle does and does not do *)

Lemma keeps_and {A} (P Q : world -> Prop) (m : M A) :
  keeps P m -> keeps Q m -> keeps (fun w => P w /\ Q w) m.
Proof.
  intros HP HQ w [Hp Hq]. specialize (HP w Hp). specialize (HQ w Hq).
  destruct (m w); auto.
Qed.

Lemma keeps_try_bare {A} (P : world -> Prop) (m h : M A) :
  keeps P m -> keeps P h -> keeps P (try_bare m h).
Proof.
  intros Hm Hh w Hw. unfold try_bare. specialize (Hm w Hw).
  destruct (m w) as [a w1 | e w1]; [assumption | now apply Hh].
Qed.

Section Footprints.

Variable ok : event -> bool.
Variable w0 : world.

Lemma only_events_refl : only_events ok w0 w0.
Proof. exists []. split; [now rewrite app_nil_r | reflexivity]. Qed.

Lemma only_events_emit (e : event) :
  ok e = true -> keeps (only_events ok w0) (emit e).
Proof.
  intros He w (l & Hl & Hok). exists (l ++ [e])%list. cbn [log with_event].
  split; [now rewrite Hl, app_assoc |].
  rewrite forallb_app, Hok. simpl. now rewrite He.
Qed.

Lemma only_events_put_fs (f : filesystem) : keeps (only_events ok w0) (put_fs f).
Proof. intros w Hw. exact Hw. Qed.

Lemma only_events_put_process (p : option popen) :
  keeps (only_events ok w0) (put_process p).
Proof. intros w Hw. exact Hw. Qed.

Lemma same_process_emit (e : event) : keeps (same_process w0) (emit e).
Proof. intros w Hw. exact Hw. Qed.

Lemma same_process_put_fs (f : filesystem) : keeps (same_process w0) (put_fs f).
Proof. intros w Hw. exact Hw. Qed.

Lemma same_disk_emit (e : event) : keeps (same_disk w0) (emit e).
Proof. intros w Hw. exact Hw. Qed.

Lemma same_disk_put_process (p : option popen) :
  keeps (same_disk w0) (put_process p).
Proof. intros w Hw. exact Hw. Qed.

End Footprints.

Ltac foot_step :=
  lazymatch goal with
  | |- keeps _ (ret _) => apply keeps_ret
  | |- keeps _ (raise _) => apply keeps_raise
  | |- keeps _ get_fs => apply keeps_get_fs
  | |- keeps _ get_process => apply keeps_get_process
  | |- keeps _ get_clock => apply keeps_get_clock
  | |- keeps (only_events _ _) (put_fs _) => apply only_events_put_fs
  | |- keeps (only_events _ _) (put_process _) => apply only_events_put_process
  | |- keeps (only_events _ _) (emit _) => apply only_events_emit; reflexivity
  | |- keeps (same_process _) (put_fs _) => apply same_process_put_fs
  | |- keeps (same_process _) (emit _) => apply same_process_emit
  | |- keeps (same_disk _) (put_process _) => apply same_disk_put_process
  | |- keeps (same_disk _) (emit _) => apply same_disk_emit
  | |- keeps _ (bind _ _) => apply keeps_bind; [| intros ?]
  | |- keeps _ (try_except _ _) => apply keeps_try_except
  | |- keeps _ (try_bare _ _) => apply keeps_try_bare
  | |- keeps _ (if ?c then _ else _) => destruct c
  | |- keeps _ (match ?x with _ => _ end) => destruct x
  end.

Ltac foot_prims :=
  repeat (progress (unfold launch_cdn, stop_cdn, download_and_extract,
                      download_progress, zip_extractall, os_remove, os_makedirs,
                      write_file, shutil_copy2, shutil_copytree, shutil_rmtree,
                      restore_env_file, restore_persistent_files,
                      backup_persistent_files, get_latest_release));
  cbv zeta; repeat foot_step.

Section FootprintOps.

Variable self : CDNLoader.
Variable env : environment.
Variable w0 : world.

Lemma backup_only_events (cdn : path) :
  keeps (only_events passive_no_launch w0) (backup_persistent_files self env cdn).
Proof. foot_prims. Qed.

Lemma backup_same_process (cdn : path) :
  keeps (same_process w0) (backup_persistent_files self env cdn).
Proof. foot_prims. Qed.

Lemma launch_only_events (cdn : path) :
  keeps (only_events passive w0) (launch_cdn env cdn).
Proof. foot_prims. Qed.

Lemma launch_same_disk (cdn : path) : keeps (same_disk w0) (launch_cdn env cdn).
Proof. foot_prims. Qed.

Lemma stop_same_disk : keeps (same_disk w0) (stop_cdn env).
Proof. foot_prims. Qed.

Lemma get_newest_cdn_only_events (ok : event -> bool) :
  (forall p, ok (EvRmtree p) = true) ->
  keeps (only_events ok w0) (get_newest_cdn self env).
Proof.
  intros Hok w (l & Hl & Hf).
  pose proof (get_newest_cdn_run self env w) as R. cbv zeta in R.
  destruct (negb (fs_exists (disk w) (current_path self))).
  { rewrite R. exists l; auto. }
  destruct (negb (fs_isdir (disk w) (current_path self))).
  { rewrite R. exists l; auto. }
  destruct (sort_desc _) as [|newest olds].
  - destruct R as [_ R]. rewrite R. exists l; auto.
  - destruct R as (w' & R & _ & _ & _ & Hlog). rewrite R.
    exists (l ++ map EvRmtree (map cdn_path olds))%list.
    split; [now rewrite Hlog, Hl, app_assoc |].
    rewrite forallb_app, Hf. cbn [andb].
    apply forallb_forall. intros e Hin.
    apply in_map_iff in Hin as (p & <- & _). apply Hok.
Qed.

Lemma get_newest_cdn_same_process :
  keeps (same_process w0) (get_newest_cdn self env).
Proof.
  intros w Hp.
  pose proof (get_newest_cdn_run self env w) as R. cbv zeta in R.
  destruct (negb (fs_exists (disk w) (current_path self))).
  { now rewrite R. }
  destruct (negb (fs_isdir (disk w) (current_path self))).
  { now rewrite R. }
  destruct (sort_desc _) as [|newest olds].
  - destruct R as [_ R]. now rewrite R.
  - destruct R as (w' & R & _ & Hproc & _). rewrite R.
    unfold same_process in *. congruence.
Qed.

End FootprintOps.

Ltac foot_cycle :=
  try lazymatch goal with |- hoare ?P ?m _ _ => change (keeps P m) end;
  repeat (progress (unfold launch_cdn, stop_cdn, download_and_extract,
                      download_progress, zip_extractall, os_remove, os_makedirs,
                      write_file, shutil_copy2, shutil_copytree, shutil_rmtree,
                      restore_env_file, restore_persistent_files,
                      backup_persistent_files, get_latest_release));
  cbv zeta;
  repeat lazymatch goal with
    | |- keeps (fun w => _ /\ _) _ => apply keeps_and
    | |- keeps (only_events _ _) (get_newest_cdn _ _) =>
        apply get_newest_cdn_only_events; intros; reflexivity
    | |- keeps (same_process _) (get_newest_cdn _ _) =>
        apply get_newest_cdn_same_process
    | |- _ => foot_step
    end.

Lemma hoare_outcome {A} (P R : world -> Prop) (m : M A) (w : world) :
  hoare P m (fun _ => R) R -> P w -> R (outcome_world (m w)).
Proof. intros H Hw. specialize (H w Hw). destruct (m w); exact H. Qed.

Lemma get_latest_release_run (self : CDNLoader) (env : environment) (w : world) :
  get_latest_release self env w
  = Ok (fetch_release env (clock w)) (with_event (EvFetch (api_url self)) w).
Proof. reflexivity. Qed.

Lemma only_events_one (ok : event -> bool) (e : event) (w : world) :
  ok e = true -> only_events ok w (with_event e w).
Proof. intros H. exists [e]. split; [reflexivity |]. simpl. now rewrite H. Qed.

(** X8. A cycle whose release query fails only queries, prunes, backs up
    and possibly launches: it never downloads, extracts, writes or removes a
    file and never stops the child. When a process handle is held, it does not
    launch either and leaves the handle as it is. *)
Theorem fetch_failure_is_passive (self : CDNLoader) (env : environment)
    (w : world) :
  fetch_release env (clock w) = None ->
  only_events passive w (outcome_world (check_and_update self env w)) /\
  (process w <> None ->
   only_events passive_no_launch w (outcome_world (check_and_update self env w))
   /\ process (outcome_world (check_and_update self env w)) = process w).
Proof.
  intros Hfetch. split.
  - apply (hoare_outcome (fun w1 => w1 = w)); [| reflexivity].
    unfold check_and_update.
    eapply hoare_bind
      with (Q := fun lr w1 => only_events passive w w1 /\ lr = None).
    { intros w1 ->. rewrite get_latest_release_run.
      split; [now apply only_events_one | assumption]. }
    intros lr. apply hoare_pure. intros ->. foot_cycle.
  - intros Hheld.
    apply (hoare_outcome (fun w1 => w1 = w)
             (fun w1 => only_events passive_no_launch w w1 /\
                        process w1 = process w)); [| reflexivity].
    unfold check_and_update.
    eapply hoare_bind
      with (Q := fun lr w1 => (only_events passive_no_launch w w1 /\
                               same_process w w1) /\ lr = None).
    { intros w1 ->. rewrite get_latest_release_run.
      split; [split; [now apply only_events_one | reflexivity] | assumption]. }
    intros lr. apply hoare_pure. intros ->.
    lazymatch goal with |- hoare ?P ?m _ _ => change (keeps P m) end.
    apply keeps_bind; [foot_cycle | intros newest].
    apply keeps_bind; [destruct newest; foot_cycle | intros backup].
    cbv zeta.
    eapply hoare_bind
      with (Q := fun pr w1 => (only_events passive_no_launch w w1 /\
                               same_process w w1) /\ pr = process w).
    { intros w1 [H1 H2]. cbn. auto. }
    intros pr. apply hoare_pure. intros ->.
    destruct newest; destruct (process w); try congruence; apply keeps_ret.
Qed.

Lemma fetch_failure_is_passive_witness :
  only_events passive world_dead_child
    (outcome_world (check_and_update loader calm world_dead_child)) /\
  (process world_dead_child <> None ->
   only_events passive_no_launch world_dead_child
     (outcome_world (check_and_update loader calm world_dead_child)) /\
   process (outcome_world (check_and_update loader calm world_dead_child))
   = process world_dead_child).
Proof. exact (fetch_failure_is_passive loader calm world_dead_child eq_refl). Defined.

Lemma get_newest_cdn_value (self : CDNLoader) (env : environment)
    (w w1 w2 : world) (r : option cdn_dir) :
  get_newest_cdn self env w = Ok r w1 -> disk w2 = disk w ->
  exists w3, get_newest_cdn self env w2 = Ok r w3.
Proof.
  intros Hrun Hdisk.
  pose proof (get_newest_cdn_run self env w) as R.
  pose proof (get_newest_cdn_run self env w2) as R2.
  cbv zeta in R, R2. rewrite Hdisk in R2.
  destruct (negb (fs_exists (disk w) (current_path self))).
  { rewrite R in Hrun. injection Hrun as <- _. eauto. }
  destruct (negb (fs_isdir (disk w) (current_path self))); [congruence |].
  destruct (sort_desc _) as [|newest olds].
  - destruct R as [_ R]. destruct R2 as [_ R2].
    rewrite R in Hrun. injection Hrun as <- _. eauto.
  - destruct R as (w' & R & _). destruct R2 as (w3 & R2 & _).
    rewrite R in Hrun. injection Hrun as <- _. eauto.
Qed.

(** X9. When the installed version found by discovery carries the same
    concatenated integer as the latest release, the cycle only queries,
    prunes, backs up and possibly launches: nothing is downloaded, extracted,
    written or removed and the child is not stopped. When the child is still
    running it is not launched again and the handle is left as it is. *)
Theorem up_to_date_is_passive (self : CDNLoader) (env : environment)
    (w w1 : world) (rel : release) (newest : cdn_dir) :
  fetch_release env (clock w) = Some rel ->
  get_newest_cdn self env w = Ok (Some newest) w1 ->
  version_num (tag_name rel) = Some (cdn_version_num newest) ->
  only_events passive w (outcome_world (check_and_update self env w)) /\
  (forall p, process w = Some p -> exited p = false ->
   only_events passive_no_launch w (outcome_world (check_and_update self env w))
   /\ process (outcome_world (check_and_update self env w)) = process w).
Proof.
  intros Hfetch Hnew Hver. split.
  - apply (hoare_outcome (fun w1 => w1 = w)); [| reflexivity].
    unfold check_and_update.
    eapply hoare_bind
      with (Q := fun lr w1 => (only_events passive w w1 /\ disk w1 = disk w) /\
                              lr = Some rel).
    { intros w2 ->. rewrite get_latest_release_run.
      split; [split; [now apply only_events_one | reflexivity] | assumption]. }
    intros lr. apply hoare_pure. intros ->.
    eapply hoare_bind
      with (Q := fun r w2 => only_events passive w w2 /\ r = Some newest).
    { intros w2 [Hinv Hdisk].
      destruct (get_newest_cdn_value self env w w1 w2 _ Hnew Hdisk) as [w3 E].
      pose proof (get_newest_cdn_only_events self env w passive
                    (fun _ => eq_refl) w2 Hinv) as K.
      rewrite E in *. auto. }
    intros r. apply hoare_pure. intros ->.
    cbv zeta. rewrite Hver, Z.eqb_refl. foot_cycle.
  - intros p Hp Halive.
    apply (hoare_outcome (fun w1 => w1 = w)
             (fun w2 => only_events passive_no_launch w w2 /\
                        process w2 = process w)); [| reflexivity].
    unfold check_and_update.
    eapply hoare_bind
      with (Q := fun lr w2 => ((only_events passive_no_launch w w2 /\
                                same_process w w2) /\ disk w2 = disk w) /\
                              lr = Some rel).
    { intros w2 ->. rewrite get_latest_release_run.
      split; [| assumption].
      split; [split; [now apply only_events_one | reflexivity] | reflexivity]. }
    intros lr. apply hoare_pure. intros ->.
    eapply hoare_bind
      with (Q := fun r w2 => (only_events passive_no_launch w w2 /\
                              same_process w w2) /\ r = Some newest).
    { intros w2 [[Hinv Hproc] Hdisk].
      destruct (get_newest_cdn_value self env w w1 w2 _ Hnew Hdisk) as [w3 E].
      pose proof (get_newest_cdn_only_events self env w passive_no_launch
                    (fun _ => eq_refl) w2 Hinv) as K.
      pose proof (get_newest_cdn_same_process self env w w2 Hproc) as K'.
      rewrite E in *. auto. }
    intros r. apply hoare_pure. intros ->.
    lazymatch goal with |- hoare ?P ?m _ _ => change (keeps P m) end.
    apply keeps_bind; [foot_cycle | intros backup].
    cbv zeta. rewrite Hver, Z.eqb_refl.
    eapply hoare_bind
      with (Q := fun pr w2 => (only_events passive_no_launch w w2 /\
                               same_process w w2) /\ pr = process w).
    { intros w2 [H1 H2]. cbn. auto. }
    intros pr. apply hoare_pure. intros ->. rewrite Hp, Halive.
    apply keeps_ret.
Qed.

Lemma up_to_date_is_passive_witness :
  only_events passive world_installed
    (outcome_world
       (check_and_update loader (with_release (Some (release_of "1.0.0")) calm)
          world_installed)).
Proof.
  refine (proj1 (up_to_date_is_passive loader
                   (with_release (Some (release_of "1.0.0")) calm)
                   world_installed
                   (outcome_world
                      (get_newest_cdn loader
                         (with_release (Some (release_of "1.0.0")) calm)
                         world_installed))
                   (release_of "1.0.0")
                   {| cdn_path := ["srv"; "cdn-1.0.0"];
                      cdn_version := "1.0.0";
                      cdn_version_num := 100 |} eq_refl _ eq_refl)).
  vm_compute. reflexivity.
Defined.

Lemma get_newest_cdn_none (self : CDNLoader) (env : environment) (w w1 : world) :
  get_newest_cdn self env w = Ok None w1 -> w1 = w.
Proof.
  intros Hrun.
  pose proof (get_newest_cdn_run self env w) as R. cbv zeta in R.
  destruct (negb (fs_exists (disk w) (current_path self))); [congruence |].
  destruct (negb (fs_isdir (disk w) (current_path self))); [congruence |].
  destruct (sort_desc _) as [|newest olds].
  - destruct R as [_ R]. congruence.
  - destruct R as (w' & R & _). congruence.
Qed.

(** X10. When discovery finds no installed version, the cycle makes no
    backup, no restore and no deletion of a directory: it creates no holding
    area, copies nothing and attempts no rmtree. *)
Theorem fresh_install_skips_migration (self : CDNLoader) (env : environment)
    (w w1 : world) :
  get_newest_cdn self env w = Ok None w1 ->
  only_events no_migration w (outcome_world (check_and_update self env w)).
Proof.
  intros Hnew.
  apply (hoare_outcome (fun w1 => w1 = w)); [| reflexivity].
  unfold check_and_update.
  eapply hoare_bind
    with (Q := fun _ w2 => only_events no_migration w w2 /\ disk w2 = disk w).
  { intros w2 ->. rewrite get_latest_release_run.
    split; [now apply only_events_one | reflexivity]. }
  intros lr. cbv beta.
  eapply hoare_bind
    with (Q := fun r w2 => only_events no_migration w w2 /\ r = None).
  { intros w2 [Hinv Hdisk].
    destruct (get_newest_cdn_value self env w w1 w2 _ Hnew Hdisk) as [w3 E].
    rewrite E. rewrite (get_newest_cdn_none _ _ _ _ E). auto. }
  intros r. apply hoare_pure. intros ->. foot_cycle.
Qed.

Lemma fresh_install_skips_migration_witness :
  only_events no_migration world_fresh
    (outcome_world (check_and_update loader env_update world_fresh)) /\
  fs_lookup (disk (outcome_world (check_and_update loader env_update world_fresh)))
    ["srv"; "cdn-1.1.0"; "main.py"] = Some (File "app-1.1.0").
Proof.
  split; [| vm_compute; reflexivity].
  apply (fresh_install_skips_migration loader env_update world_fresh world_fresh).
  vm_compute. reflexivity.
Defined.

(** ** The supervised process *)

Lemma stop_cdn_stops_helper (env : environment) (w : world) :
  exists w',
    stop_cdn env w = Ok tt w' /\ no_live_child w' /\ disk w' = disk w.
Proof.
  unfold stop_cdn, no_live_child. unfold_m.
  destruct (process w) as [p|] eqn:Hp.
  - destruct (exited p) eqn:He; cbn [negb].
    + exists w. rewrite Hp. auto.
    + destruct (terminate env (pid p)); eexists; (split; [reflexivity |]);
        cbn [process disk with_event with_process]; auto.
  - exists w. rewrite Hp. auto.
Qed.

(** X11. stop_cdn never raises and never touches the disk. Afterwards no
    child that could still be running is held, whether the child exited on
    the request, had to be killed after the timeout, or the request failed;
    when no running child was held, nothing happens at all. *)
Theorem stop_cdn_leaves_no_live_child (env : environment) (w : world) :
  exists w',
    stop_cdn env w = Ok tt w' /\
    no_live_child w' /\ disk w' = disk w /\
    (no_live_child w -> w' = w) /\
    (forall p, process w = Some p -> exited p = false ->
               process w' = None /\
               exists l, log w' = (log w ++ EvTerminate (pid p) :: l)%list).
Proof.
  unfold stop_cdn, no_live_child. unfold_m.
  destruct (process w) as [p|] eqn:Hp.
  - destruct (exited p) eqn:He; cbn [negb].
    + exists w. rewrite ?Hp.
      split; [reflexivity |]. split; [exact He |]. split; [reflexivity |].
      split; [reflexivity |]. intros q [= <-] Hq. congruence.
    + destruct (terminate env (pid p)); eexists; (split; [reflexivity |]);
        cbn [process disk log with_event with_process];
        (split; [exact I |]); (split; [reflexivity |]);
        (split; [intros H; congruence |]);
        intros q [= <-] _; (split; [reflexivity |]);
        rewrite <- ?app_assoc; eexists; reflexivity.
  - exists w. rewrite ?Hp.
    split; [reflexivity |]. split; [exact I |]. split; [reflexivity |].
    split; [reflexivity |]. discriminate.
Qed.

(** X12. launch_cdn never raises and never touches the disk. Without the
    entry point main.py in the version directory it attempts nothing and
    changes nothing; when starting the process fails the handle held before
    is kept; otherwise the new, running child becomes the handle. *)
Theorem launch_cdn_outcomes (env : environment) (cdn : path) (w : world) :
  exists r w',
    launch_cdn env cdn w = Ok r w' /\ disk w' = disk w /\
    (fs_exists (disk w) (join cdn "main.py") = false -> r = None /\ w' = w) /\
    (fs_exists (disk w) (join cdn "main.py") = true ->
     log w' = (log w ++ [EvPopen (join cdn "main.py") cdn])%list /\
     (popen_fails env cdn = true -> r = None /\ process w' = process w) /\
     (popen_fails env cdn = false ->
      r = Some {| pid := spawn_pid env cdn; exited := false |} /\
      process w' = r)).
Proof.
  unfold launch_cdn. unfold_m.
  destruct (fs_exists (disk w) (join cdn "main.py")).
  - cbn [disk with_event]. destruct (popen_fails env cdn); do 2 eexists;
      (split; [reflexivity |]); (split; [reflexivity |]);
      (split; [discriminate |]); intros _;
      (split; [reflexivity |]); split; intros H; try discriminate H;
      split; reflexivity.
  - exists None, w. repeat split; auto; discriminate.
Qed.

(** ** The control loop *)

Lemma shutdown_run (self : CDNLoader) (env : environment) (w : world) :
  exists w',
    shutdown self env w = Ok tt w' /\ no_live_child w' /\
    (remove_fails env (flag_file self) = false ->
     fs_isfile (disk w') (flag_file self) = false).
Proof.
  unfold shutdown.
  destruct (stop_cdn_stops_helper env w) as (w1 & Hstop & Hlive & Hdisk).
  unfold bind at 1. rewrite Hstop. unfold try_bare, os_remove. unfold_m.
  destruct (fs_exists (disk w1) (flag_file self)) eqn:Hex.
  - cbn [disk with_event].
    destruct (remove_fails env (flag_file self)
              || negb (fs_isfile (disk w1) (flag_file self))) eqn:E.
    + eexists. split; [reflexivity |]. split; [exact Hlive |].
      intros Hrm. rewrite Hrm in E. cbn [orb] in E.
      apply negb_true_iff in E. exact E.
    + eexists. split; [reflexivity |]. split; [exact Hlive |].
      intros _. cbn [disk with_fs with_event]. unfold fs_isfile.
      now rewrite fs_lookup_delete, path_eqb_refl.
  - exists w1. split; [reflexivity |]. split; [exact Hlive |].
    intros _. unfold fs_exists, fs_isfile in *.
    destruct (fs_lookup (disk w1) (flag_file self)); [discriminate | reflexivity].
Qed.

Section Interrupts.

Variable I : Prop.

Lemma ki_bind {A B} (m : M A) (k : A -> M B) :
  interrupt_only_if I m -> (forall a, interrupt_only_if I (k a)) ->
  interrupt_only_if I (bind m k).
Proof.
  intros Hm Hk w w' H. unfold bind in H.
  destruct (m w) as [a w1 | e w1] eqn:E.
  - eapply Hk; eauto.
  - injection H as -> ->. eapply Hm; eauto.
Qed.

Lemma ki_ret {A} (a : A) : interrupt_only_if I (ret a).
Proof. intros w w' H. discriminate. Qed.

Lemma ki_raise {A} (e : exn) :
  e <> KeyboardInterrupt -> interrupt_only_if I (@raise A e).
Proof. intros Hne w w' [= -> _]. congruence. Qed.

Lemma ki_try_except {A} (m h : M A) :
  interrupt_only_if I m -> interrupt_only_if I h ->
  interrupt_only_if I (try_except m h).
Proof.
  intros Hm Hh w w' H. unfold try_except in H.
  destruct (m w) as [a w1 | e w1] eqn:E; [discriminate |].
  destruct (is_exception e) eqn:Ee.
  - eapply Hh; eauto.
  - injection H as -> ->. eapply Hm; eauto.
Qed.

Lemma ki_try_bare {A} (m h : M A) :
  interrupt_only_if I h -> interrupt_only_if I (try_bare m h).
Proof.
  intros Hh w w' H. unfold try_bare in H.
  destruct (m w) as [a w1 | e w1] eqn:E; [discriminate |].
  eapply Hh; eauto.
Qed.

Lemma ki_get_fs : interrupt_only_if I get_fs.
Proof. intros w w' H. discriminate. Qed.

Lemma ki_get_process : interrupt_only_if I get_process.
Proof. intros w w' H. discriminate. Qed.

Lemma ki_get_clock : interrupt_only_if I get_clock.
Proof. intros w w' H. discriminate. Qed.

Lemma ki_put_fs (f : filesystem) : interrupt_only_if I (put_fs f).
Proof. intros w w' H. discriminate. Qed.

Lemma ki_put_process (p : option popen) : interrupt_only_if I (put_process p).
Proof. intros w w' H. discriminate. Qed.

Lemma ki_emit (e : event) : interrupt_only_if I (emit e).
Proof. intros w w' H. discriminate. Qed.

End Interrupts.

Ltac ki_step :=
  lazymatch goal with
  | |- interrupt_only_if _ (ret _) => apply ki_ret
  | |- interrupt_only_if _ (raise _) => apply ki_raise; discriminate
  | |- interrupt_only_if _ get_fs => apply ki_get_fs
  | |- interrupt_only_if _ get_process => apply ki_get_process
  | |- interrupt_only_if _ get_clock => apply ki_get_clock
  | |- interrupt_only_if _ (put_fs _) => apply ki_put_fs
  | |- interrupt_only_if _ (put_process _) => apply ki_put_process
  | |- interrupt_only_if _ (emit _) => apply ki_emit
  | |- interrupt_only_if _ (bind _ _) => apply ki_bind; [| intros ?]
  | |- interrupt_only_if _ (try_except _ _) => apply ki_try_except
  | |- interrupt_only_if _ (try_bare _ _) => apply ki_try_bare
  | |- interrupt_only_if _ (if ?c then _ else _) => destruct c
  | |- interrupt_only_if _ (match ?x with _ => _ end) => destruct x
  end.

Section InterruptOps.

Variable self : CDNLoader.
Variable env : environment.

Lemma ki_get_newest_cdn (I : Prop) : interrupt_only_if I (get_newest_cdn self env).
Proof.
  intros w w' H.
  pose proof (get_newest_cdn_run self env w) as R. cbv zeta in R.
  destruct (negb (fs_exists (disk w) (current_path self))); [congruence |].
  destruct (negb (fs_isdir (disk w) (current_path self))); [congruence |].
  destruct (sort_desc _) as [|newest olds].
  - destruct R as [_ R]. congruence.
  - destruct R as (w1 & R & _). congruence.
Qed.

Lemma ki_time_sleep (secs : nat) :
  interrupt_only_if (interrupt_sent env) (time_sleep self env secs).
Proof.
  intros w w' H. unfold time_sleep in H.
  destruct (interrupted env (clock w)) eqn:E; [| discriminate].
  now exists (clock w).
Qed.

Lemma ki_check_and_update (I : Prop) :
  interrupt_only_if I (check_and_update self env).
Proof.
  unfold check_and_update.
  repeat (progress (unfold launch_cdn, stop_cdn, download_and_extract,
                      download_progress, zip_extractall, os_remove, os_makedirs,
                      write_file, shutil_copy2, shutil_copytree, shutil_rmtree,
                      restore_env_file, restore_persistent_files,
                      backup_persistent_files, get_latest_release));
  cbv zeta;
  repeat lazymatch goal with
    | |- interrupt_only_if _ (get_newest_cdn _ _) => apply ki_get_newest_cdn
    | |- _ => ki_step
    end.
Qed.

Lemma ki_loop_body (check_interval last_check : nat) :
  interrupt_only_if (interrupt_sent env)
    (loop_body self env check_interval last_check).
Proof.
  unfold loop_body.
  repeat lazymatch goal with
    | |- interrupt_only_if _ (check_and_update _ _) => apply ki_check_and_update
    | |- interrupt_only_if _ (get_newest_cdn _ _) => apply ki_get_newest_cdn
    | |- interrupt_only_if _ (time_sleep _ _ _) => apply ki_time_sleep
    | |- interrupt_only_if _ (launch_cdn _ _) => unfold launch_cdn
    | |- _ => ki_step
    end.
Qed.

Lemma main_loop_interrupt (check_interval fuel last_check : nat) (w w' : world) :
  main_loop self env check_interval fuel last_check w
  = Some (KeyboardInterrupt, w') ->
  interrupt_sent env.
Proof.
  revert last_check w. induction fuel as [|fuel IH]; intros last_check w H;
    [discriminate |].
  cbn [main_loop] in H.
  destruct (loop_body self env check_interval last_check w) as [lc w1 | e w1] eqn:E.
  - eapply IH; eauto.
  - injection H as -> ->. eapply ki_loop_body; eauto.
Qed.

(** X13. run_with_updates returns normally only after an interrupt, and
    then no child that could still be running is held; the update-request
    marker is no longer a file of the working root when its removal does not
    fail. *)
Theorem run_with_updates_returns_after_interrupt (check_interval fuel : nat)
    (w w' : world) :
  run_with_updates self env check_interval fuel w = Some (Ok tt w') ->
  interrupt_sent env /\ no_live_child w' /\
  (remove_fails env (flag_file self) = false ->
   fs_isfile (disk w') (flag_file self) = false).
Proof.
  unfold run_with_updates. intros H.
  destruct (check_and_update self env w) as [[] w1 | e w1]; [| discriminate].
  destruct (main_loop self env check_interval fuel 0 w1) as [[e w2]|] eqn:E;
    [| discriminate].
  destruct e; try discriminate.
  split; [eapply main_loop_interrupt; eauto |].
  destruct (shutdown_run self env w2) as (w3 & Hs & Hl & Hf).
  injection H as H. rewrite Hs in H. injection H as <-. auto.
Qed.

End InterruptOps.

Lemma run_with_updates_returns_after_interrupt_witness :
  interrupt_sent env_interrupt /\
  no_live_child
    (outcome_world (shutdown loader env_interrupt
       (outcome_world (loop_body loader env_interrupt 60 0
          (outcome_world (check_and_update loader env_interrupt world_installed))))))
  /\ (remove_fails env_interrupt (flag_file loader) = false ->
      fs_isfile
        (disk (outcome_world (shutdown loader env_interrupt
           (outcome_world (loop_body loader env_interrupt 60 0
              (outcome_world
                 (check_and_update loader env_interrupt world_installed)))))))
        (flag_file loader) = false).
Proof.
  apply (run_with_updates_returns_after_interrupt loader env_interrupt 60 1
           world_installed).
  vm_compute. reflexivity.
Defined.

Lemma time_sleep_only_events (self : CDNLoader) (env : environment)
    (ok : event -> bool) (w0 : world) (secs : nat) :
  keeps (only_events ok w0) (time_sleep self env secs).
Proof.
  intros w Hw. unfold time_sleep.
  destruct (flag_raised env (clock w)); cbn [process with_fs with_clock];
    destruct (process w); try destruct (child_exits env (clock w));
    destruct (interrupted env (clock w)); exact Hw.
Qed.

Lemma time_sleep_run (self : CDNLoader) (env : environment) (secs : nat)
    (w : world) :
  log (outcome_world (time_sleep self env secs w)) = log w /\
  clock (outcome_world (time_sleep self env secs w)) = (clock w + secs)%nat.
Proof.
  unfold time_sleep.
  destruct (flag_raised env (clock w)); cbn [process with_fs with_clock];
    destruct (process w); try destruct (child_exits env (clock w));
    destruct (interrupted env (clock w)); split; reflexivity.
Qed.

Ltac foot_loop :=
  repeat (progress (unfold launch_cdn));
  cbv zeta;
  repeat lazymatch goal with
    | |- keeps (only_events _ _) (get_newest_cdn _ _) =>
        apply get_newest_cdn_only_events; intros; reflexivity
    | |- keeps (only_events _ _) (time_sleep _ _ _) =>
        apply time_sleep_only_events
    | |- _ => foot_step
    end.

(** The part of a turn of the loop that follows the update check. *)
Lemma loop_body_without_check (self : CDNLoader) (env : environment)
    (check_interval last_check : nat) (w : world) :
  fs_exists (disk w) (flag_file self) = false ->
  (clock w - last_check < check_interval)%nat ->
  loop_body self env check_interval last_check w
  = (pr <- get_process ;;
     (match pr with
      | Some p =>
          if exited p then
            newest <- get_newest_cdn self env ;;
            match newest with
            | Some n => launch_cdn env (cdn_path n) ;; ret tt
            | None => ret tt
            end
          else ret tt
      | None => ret tt
      end) ;;
     time_sleep self env 10 ;;
     ret last_check) w.
Proof.
  intros Hflag Hdue. unfold loop_body.
  unfold bind at 1. unfold get_clock at 1.
  unfold bind at 1. unfold get_fs at 1. rewrite Hflag.
  apply Nat.leb_gt in Hdue. rewrite Hdue.
  unfold bind at 1. unfold ret at 1. reflexivity.
Qed.

(** X14. A turn of the loop with no update-request marker and before the
    check interval has elapsed makes no update check: it does not query the
    release source, back up, download or stop anything, its only possible
    actions are the pruning of discovery and a launch, and it leaves the time
    of the last check as it is. When no exited child is held it does nothing
    but sleep. *)
Theorem tick_without_check (self : CDNLoader) (env : environment)
    (check_interval last_check : nat) (w : world) :
  fs_exists (disk w) (flag_file self) = false ->
  (clock w - last_check < check_interval)%nat ->
  only_events relaunch_only w
    (outcome_world (loop_body self env check_interval last_check w)) /\
  (forall lc w', loop_body self env check_interval last_check w = Ok lc w' ->
                 lc = last_check) /\
  ((forall p, process w = Some p -> exited p = false) ->
   log (outcome_world (loop_body self env check_interval last_check w)) = log w /\
   clock (outcome_world (loop_body self env check_interval last_check w))
   = (clock w + 10)%nat).
Proof.
  intros Hflag Hdue.
  rewrite (loop_body_without_check self env check_interval last_check w Hflag Hdue).
  split; [| split].
  - apply (hoare_outcome (only_events relaunch_only w));
      [| apply only_events_refl].
    lazymatch goal with |- hoare ?P ?m _ _ => change (keeps P m) end.
    foot_loop.
  - intros lc w'.
    assert (H : hoare (fun _ => True)
                  (pr <- get_process ;;
                   (match pr with
                    | Some p =>
                        if exited p then
                          newest <- get_newest_cdn self env ;;
                          match newest with
                          | Some n => launch_cdn env (cdn_path n) ;; ret tt
                          | None => ret tt
                          end
                        else ret tt
                    | None => ret tt
                    end) ;;
                   time_sleep self env 10 ;;
                   ret last_check)
                  (fun r _ => r = last_check) (fun _ => True)).
    { eapply hoare_bind with (Q := fun _ _ => True); [intros ? _; exact I |].
      intros pr. cbv beta.
      eapply hoare_bind with (Q := fun _ _ => True).
      { intros w1 _. match goal with |- match ?m w1 with _ => _ end =>
                       destruct (m w1) end; exact I. }
      intros ?. cbv beta.
      eapply hoare_bind with (Q := fun _ _ => True).
      { intros w1 _. destruct (time_sleep self env 10 w1); exact I. }
      intros ?. cbv beta. apply hoare_ret. auto. }
    intros E. specialize (H w I). rewrite E in H. exact H.
  - intros Halive.
    assert (Eq : (pr <- get_process ;;
                  (match pr with
                   | Some p =>
                       if exited p then
                         newest <- get_newest_cdn self env ;;
                         match newest with
                         | Some n => launch_cdn env (cdn_path n) ;; ret tt
                         | None => ret tt
                         end
                       else ret tt
                   | None => ret tt
                   end) ;;
                  time_sleep self env 10 ;;
                  ret last_check) w
                 = (time_sleep self env 10 ;; ret last_check) w).
    { unfold bind, get_process. cbn beta iota.
      destruct (process w) as [p|] eqn:Hp; [rewrite (Halive p eq_refl) |];
        reflexivity. }
    rewrite Eq. unfold bind, ret.
    pose proof (time_sleep_run self env 10 w) as [Hl Hc].
    destruct (time_sleep self env 10 w); cbn [outcome_world] in *; auto.
Qed.

Lemma tick_without_check_witness :
  only_events relaunch_only world_dead_child
    (outcome_world (loop_body loader calm 60 0 world_dead_child)) /\
  process (outcome_world (loop_body loader calm 60 0 world_dead_child))
  = Some {| pid := 4242; exited := false |}.
Proof.
  split; [| vm_compute; reflexivity].
  apply (tick_without_check loader calm 60 0 world_dead_child);
    [reflexivity | simpl; lia].
Defined.




(** ** More on the filesystem *)


Lemma sibling_prefix (r rest : path) (a b : string) :
  is_prefix (join r a) (join r b ++ rest)%list = true -> a = b.
Proof.
  induction r as [|x r IH]; simpl.
  - rewrite andb_true_r. apply String.eqb_eq.
  - rewrite String.eqb_refl. exact IH.
Qed.
















Lemma fs_lookup_of_in (f : filesystem) (q : path) (n : node) :
  NoDup (map fst f) -> In (q, n) f -> fs_lookup f q = Some n.
Proof.
  induction f as [|[k m] f IH]; simpl; intros Hnd Hin; [destruct Hin |].
  inversion Hnd as [|? ? Hfresh Hnd']; subst.
  destruct Hin as [[= -> ->] | Hin]; [now rewrite path_eqb_refl |].
  destruct (path_eqb_spec k q) as [->|Hne]; [| now apply IH].
  exfalso. apply Hfresh. apply in_map_iff. exists (q, n). auto.
Qed.








(** ** Download and extraction, continued *)

Lemma download_complete_run (env : environment) (url : string) (out : path)
    (data : string) (w : world) :
  download env url = DlComplete data ->
  write_fails env out = false ->
  fs_isdir (disk w) out = false ->
  fs_isdir (disk w) (parent out) = true ->
  download_progress env url out w
  = Ok true (with_fs (fs_set out (File data) (disk w))
               (with_event (EvWrite out) (with_event (EvDownload url out) w))).
Proof.
  intros Hdl Hw Hd Hp. unfold download_progress. rewrite Hdl.
  unfold bind at 1. unfold emit at 1. unfold try_except, bind.
  rewrite write_file_ok by assumption. reflexivity.
Qed.

(** X16. When the bundle downloads but cannot be opened as an archive,
    download_and_extract returns nothing, removes the temporary archive and
    leaves every other path, and the process handle, as they were: nothing is
    extracted. *)
Theorem corrupt_archive_is_cleaned_up (self : CDNLoader) (env : environment)
    (rel : release) (version : string) (zip_asset : asset) (data : string)
    (w : world) :
  let temp_zip := join (current_path self) ("cdn-" ++ version ++ "-temp.zip") in
  find (fun a => endswith ".zip" (name a)) (assets rel) = Some zip_asset ->
  download env (browser_download_url zip_asset) = DlComplete data ->
  unzip env data = BadZip ->
  write_fails env temp_zip = false ->
  remove_fails env temp_zip = false ->
  fs_isdir (disk w) temp_zip = false ->
  fs_isdir (disk w) (current_path self) = true ->
  exists w',
    download_and_extract self env rel version w = Ok None w' /\
    fs_lookup (disk w') temp_zip = None /\
    (forall q, q <> temp_zip -> fs_lookup (disk w') q = fs_lookup (disk w) q) /\
    process w' = process w.
Proof.
  intros temp_zip Hfind Hdl Hzip Hwf Hrf Hfile Hroot.
  unfold download_and_extract. rewrite Hfind. fold temp_zip.
  unfold bind at 1.
  rewrite (download_complete_run env _ temp_zip data w Hdl Hwf Hfile)
    by (unfold temp_zip; rewrite parent_join; assumption).
  cbn [negb]. unfold try_except.
  unfold zip_extractall. unfold bind at 1. unfold bind at 1. unfold emit at 1.
  unfold bind at 1. unfold get_fs at 1. cbn [disk with_fs with_event].
  rewrite fs_lookup_set, path_eqb_refl, Hzip. unfold raise at 1.
  cbn [is_exception]. unfold bind at 1. unfold get_fs at 1.
  cbn [disk with_fs with_event]. unfold fs_exists.
  rewrite fs_lookup_set, path_eqb_refl.
  unfold os_remove. unfold_m. cbn [disk with_fs with_event]. unfold fs_isfile.
  rewrite fs_lookup_set, path_eqb_refl, Hrf. cbn [orb negb].
  eexists. split; [reflexivity |]. cbn [disk process with_fs with_event].
  split; [now rewrite fs_lookup_delete, path_eqb_refl |].
  split; [| reflexivity].
  intros q Hq. rewrite fs_lookup_delete, fs_lookup_set.
  destruct (path_eqb_spec temp_zip q); [congruence | reflexivity].
Qed.

Lemma corrupt_archive_is_cleaned_up_witness :
  exists w',
    download_and_extract loader env_bad_zip (release_of "1.1.0") "1.1.0"
      world_installed = Ok None w' /\
    fs_lookup (disk w') ["srv"; "cdn-1.1.0-temp.zip"] = None /\
    (forall q, q <> ["srv"; "cdn-1.1.0-temp.zip"] ->
               fs_lookup (disk w') q = fs_lookup (disk world_installed) q) /\
    process w' = process world_installed.
Proof.
  exact (corrupt_archive_is_cleaned_up loader env_bad_zip (release_of "1.1.0")
           "1.1.0" bundle_zip "not a zip" world_installed
           eq_refl eq_refl eq_refl eq_refl eq_refl eq_refl eq_refl).
Defined.






(** ** Moving the persistent state *)












Section Snapshot.

Variable self : CDNLoader.
Variable env : environment.
Variable file : string.
Hypothesis Hfile : file <> "cdn_backup_temp".





End Snapshot.




Section Migration.

Variable self : CDNLoader.
Variable env : environment.
Variable file : string.
Hypothesis Hfile : file <> "cdn_backup_temp".



End Migration.


(** ** A complete update *)


















Section Update.

Variable self : CDNLoader.
Variable env : environment.


End Update.


(** ** The periodic check *)



(** ** The order of versions *)

Lemma radix_lex (q x1 x2 r1 r2 : Z) :
  (0 <= r1 < q)%Z -> (0 <= r2 < q)%Z ->
  (x1 * q + r1 < x2 * q + r2 <-> x1 < x2 \/ (x1 = x2 /\ r1 < r2))%Z.
Proof. intros H1 H2. split; [intros H | intros [H | [-> H]]]; nia. Qed.

(** X22. For two identifiers whose minor components have the same number of
    digits and whose patch components have the same number of digits, the
    concatenated integers are ordered as the triples of component values are,
    major first: discovery then prefers the version that is newer component by
    component. *)
Theorem version_num_order_same_widths (a1 b1 c1 a2 b2 c2 : string) :
  digit_run a1 -> digit_run b1 -> digit_run c1 ->
  digit_run a2 -> digit_run b2 -> digit_run c2 ->
  String.length b1 = String.length b2 ->
  String.length c1 = String.length c2 ->
  exists n1 n2,
    version_num (dotted a1 b1 c1) = Some n1 /\
    version_num (dotted a2 b2 c2) = Some n2 /\
    (n1 < n2 <->
     dval 0 a1 < dval 0 a2 \/
     (dval 0 a1 = dval 0 a2 /\
      (dval 0 b1 < dval 0 b2 \/
       (dval 0 b1 = dval 0 b2 /\ dval 0 c1 < dval 0 c2))))%Z.
Proof.
  intros Ha1 Hb1 Hc1 Ha2 Hb2 Hc2 Lb Lc.
  exists (dval 0 (a1 ++ b1 ++ c1)), (dval 0 (a2 ++ b2 ++ c2)).
  split; [now apply version_num_dotted |].
  split; [now apply version_num_dotted |].
  rewrite !dval_three.
  assert (Wb : width b1 = width b2) by (unfold width; now rewrite Lb).
  assert (Wc : width c1 = width c2) by (unfold width; now rewrite Lc).
  rewrite Wb, Wc.
  destruct Hb1 as [Db1 _], Hc1 as [Dc1 _], Hb2 as [Db2 _], Hc2 as [Dc2 _].
  pose proof (dval_bound _ Db1) as Bb1. pose proof (dval_bound _ Db2) as Bb2.
  pose proof (dval_bound _ Dc1) as Bc1. pose proof (dval_bound _ Dc2) as Bc2.
  rewrite Wb in Bb1. rewrite Wc in Bc1.
  assert (0 <= width b2)%Z by (unfold width; lia).
  assert (0 <= width c2)%Z by (unfold width; lia).
  rewrite Z.pow_add_r by assumption.
  set (P := (10 ^ width b2)%Z) in *. set (Q := (10 ^ width c2)%Z) in *.
  set (A1 := dval 0 a1). set (A2 := dval 0 a2).
  set (B1 := dval 0 b1) in *. set (B2 := dval 0 b2) in *.
  set (C1 := dval 0 c1) in *. set (C2 := dval 0 c2) in *.
  replace (A1 * (P * Q) + B1 * Q + C1)%Z with ((A1 * P + B1) * Q + C1)%Z by ring.
  replace (A2 * (P * Q) + B2 * Q + C2)%Z with ((A2 * P + B2) * Q + C2)%Z by ring.
  rewrite (radix_lex Q) by lia. rewrite (radix_lex P) by lia.
  split.
  - intros [[H1 | [H1 H2]] | [H1 H2]]; [now left | right; split; auto |].
    apply (radix_split P) in H1 as [E1 E2]; [| lia | lia].
    right. split; [exact E1 |]. right. split; [exact E2 | exact H2].
  - intros [H1 | [H1 [H2 | [H2 H3]]]]; [left; now left | left; right; auto |].
    right. split; [now rewrite H1, H2 | exact H3].
Qed.

Lemma version_num_order_same_widths_witness :
  exists n1 n2,
    version_num (dotted "1" "09" "3") = Some n1 /\
    version_num (dotted "1" "10" "0") = Some n2 /\
    (n1 < n2)%Z.
Proof.
  destruct (version_num_order_same_widths "1" "09" "3" "1" "10" "0")
    as (n1 & n2 & H1 & H2 & H3);
    try (split; [reflexivity | discriminate]); try reflexivity.
  exists n1, n2. split; [exact H1 |]. split; [exact H2 |].
  apply H3. right. split; [reflexivity |]. left. reflexivity.
Defined.
